(** * Faktury: invoice field extraction and QR payload encoding

    A shallow embedding of [src/app.py]: the field extractor [parse_text]
    (four regular-expression searches with fall-backs), the QR Platba
    encoder [generate_qr_platba] and the submission handler of the payment
    form, followed by the properties the specification states about them.

    Python strings are sequences of Unicode code points, so a string is a
    [list N] here.  A Python [float] is an IEEE binary64 value, modelled by
    the standard library's [spec_float]. *)

From Stdlib Require Import List Bool Arith NArith ZArith Lia.
From Stdlib Require Import Ascii String DecimalString.
From Stdlib Require Import Floats.SpecFloat.
Import ListNotations.


(** ** Strings of code points *)

Module Py.

Local Open Scope N_scope.

Definition char := N.
Definition str := list char.

(** String literals of the source are written as Rocq strings (UTF-8 bytes)
    and decoded to code points. *)
Definition cont (a : ascii) : N := N.land (N_of_ascii a) 63.

Fixpoint utf8 (s : string) : str :=
  match s with
  | EmptyString => []
  | String a s1 =>
      let b := N_of_ascii a in
      if b <? 128 then b :: utf8 s1
      else match s1 with
           | EmptyString => [b]
           | String a2 s2 =>
               if b <? 224 then (N.land b 31 * 64 + cont a2) :: utf8 s2
               else match s2 with
                    | EmptyString => [b]
                    | String a3 s3 =>
                        if b <? 240
                        then (N.land b 15 * 4096 + cont a2 * 64 + cont a3)
                               :: utf8 s3
                        else match s3 with
                             | EmptyString => [b]
                             | String a4 s4 =>
                                 (N.land b 7 * 262144 + cont a2 * 4096
                                  + cont a3 * 64 + cont a4) :: utf8 s4
                             end
                    end
           end
  end.

(** Truth value of a string: [if s] holds for the non-empty ones. *)
Definition truthy (s : str) : bool :=
  match s with [] => false | _ :: _ => true end.

(** [s.startswith(p)] *)
Fixpoint startswith (p s : str) : bool :=
  match p, s with
  | [], _ => true
  | _ :: _, [] => false
  | a :: p1, b :: s1 => (a =? b) && startswith p1 s1
  end.

(** [p in s] *)
Fixpoint contains (p s : str) : bool :=
  startswith p s ||
  match s with
  | [] => false
  | _ :: s1 => contains p s1
  end.

(** [s.replace(old, new)] for a one-character [old]. *)
Definition replace (old : char) (new : str) (s : str) : str :=
  flat_map (fun c => if c =? old then new else [c]) s.

End Py.

Import Py.

Notation "'py' s" := (utf8 s%string) (at level 9, s at level 0, only parsing).

(** A one-character literal. *)
Definition ch (s : string) : char := hd 0%N (utf8 s).

(** ** The Unicode character database

    The character predicates of CPython come from its Unicode database,
    which is not part of the repository.  The ASCII range is written out;
    above it the tables are a parameter. *)

Class Unicode := {
  (** [Py_UNICODE_TODECIMAL]: the value of a decimal digit *)
  u_todecimal : char -> option N;
  (** [Py_UNICODE_ISSPACE] *)
  u_isspace : char -> bool;
  (** [Py_UNICODE_ISALNUM] *)
  u_isalnum : char -> bool;
  (** [Py_UNICODE_TOLOWER]: the one-character lower-case mapping *)
  u_tolower : char -> char;
  (** [_PyUnicode_ToUpperFull]: the full upper-case mapping, one to three
      characters *)
  u_toupper_full : char -> str;
  (** no decimal digit is white space *)
  u_decimal_not_space : forall c d, u_todecimal c = Some d -> u_isspace c = false;
  (** a decimal digit is alphanumeric *)
  u_decimal_alnum : forall c d, u_todecimal c = Some d -> u_isalnum c = true
}.

Section Chars.
Context {U : Unicode}.
Open Scope N_scope.

Definition is_ascii (c : char) : bool := c <? 128.

Definition ascii_digit (c : char) : bool := (48 <=? c) && (c <=? 57).
Definition ascii_upper_letter (c : char) : bool := (65 <=? c) && (c <=? 90).
Definition ascii_lower_letter (c : char) : bool := (97 <=? c) && (c <=? 122).

(** White space of the ASCII range: TAB, LF, VT, FF, CR, FS, GS, RS, US and
    the space. *)
Definition ascii_space (c : char) : bool :=
  ((9 <=? c) && (c <=? 13)) || ((28 <=? c) && (c <=? 32)).

Definition ascii_tolower (c : char) : char :=
  if ascii_upper_letter c then c + 32 else c.
Definition ascii_toupper (c : char) : char :=
  if ascii_lower_letter c then c - 32 else c.

Definition todecimal (c : char) : option N :=
  if is_ascii c then (if ascii_digit c then Some (c - 48) else None)
  else u_todecimal c.

(** [\d] *)
Definition isdecimal (c : char) : bool :=
  match todecimal c with Some _ => true | None => false end.

(** [\s] *)
Definition isspace (c : char) : bool :=
  if is_ascii c then ascii_space c else u_isspace c.

(** [\w]: alphanumeric or underscore *)
Definition isword (c : char) : bool :=
  if is_ascii c
  then ascii_digit c || ascii_upper_letter c || ascii_lower_letter c || (c =? 95)
  else u_isalnum c.

Definition tolower (c : char) : char :=
  if is_ascii c then ascii_tolower c else u_tolower c.

(** [s.upper()] maps every character through the full upper-case mapping. *)
Definition toupper_full (c : char) : str :=
  if is_ascii c then [ascii_toupper c] else u_toupper_full c.

Definition upper (s : str) : str := flat_map toupper_full s.

End Chars.

(** A database for running the definitions: it knows no character above the
    ASCII range. *)
Definition ascii_only : Unicode.
Proof.
  refine {| u_todecimal := fun _ => None;
            u_isspace := fun _ => false;
            u_isalnum := fun _ => false;
            u_tolower := fun c => c;
            u_toupper_full := fun c => [c] |}.
  - intros c d H; reflexivity.
  - intros c d H; discriminate H.
Defined.

(** ** Regular expressions: the backtracking matcher of [re]

    Every quantifier of the source's patterns applies to a single character
    class, so the repetition node carries a class.  Matching is in
    continuation-passing style: the first successful path is the result, an
    alternation tries its branches from the left and a repetition is greedy,
    as in [re]. *)

Module Re.
Section Matcher.
Context {U : Unicode}.

Inductive regex : Type :=
| Eps
| Chr (p : char -> bool)
| Rep (p : char -> bool) (lo : nat) (hi : option nat)
| Seq (r1 r2 : regex)
| Alt (r1 r2 : regex)
| Group (n : nat) (r : regex)
| WordB.

(** A cursor into the text: the number of characters before it, the
    character just before it (for [\b]), the characters after it, and the
    groups captured so far, the latest first. *)
Record mstate : Type := MState {
  pos : nat;
  prev : option char;
  rest : str;
  groups : list (nat * str)
}.

Definition advance (c : char) (l : str) (s : mstate) : mstate :=
  MState (S (pos s)) (Some c) l (groups s).

Definition set_group (n : nat) (g : str) (s : mstate) : mstate :=
  MState (pos s) (prev s) (rest s) ((n, g) :: groups s).

(** [m.group(n)]: [None] when the group took no part in the match. *)
Fixpoint lookup (n : nat) (gs : list (nat * str)) : option str :=
  match gs with
  | [] => None
  | (k, g) :: gs1 => if Nat.eqb k n then Some g else lookup n gs1
  end.

Definition group (m : mstate) (n : nat) : option str := lookup n (groups m).

Definition isword_opt (c : option char) : bool :=
  match c with Some c => isword c | None => false end.

(** [\b]: exactly one of the two neighbours is a word character. *)
Definition at_boundary (s : mstate) : bool :=
  xorb (isword_opt (prev s)) (isword_opt (hd_error (rest s))).

Definition dec_hi (hi : option nat) : option nat :=
  match hi with Some h => Some (Nat.pred h) | None => None end.

Definition hi_is_zero (hi : option nat) : bool :=
  match hi with Some O => true | _ => false end.

(** Greedy [p{lo,hi}]: as many characters as possible first, then one less
    at a time, never fewer than [lo]. *)
Fixpoint rep (p : char -> bool) (lo : nat) (hi : option nat)
    (k : mstate -> option mstate) (n : nat) (pv : option char)
    (gs : list (nat * str)) (l : str) {struct l} : option mstate :=
  let stop := match lo with O => k (MState n pv l gs) | S _ => None end in
  if hi_is_zero hi then stop
  else match l with
       | [] => stop
       | c :: l1 =>
           if p c then
             match rep p (Nat.pred lo) (dec_hi hi) k (S n) (Some c) gs l1 with
             | Some m => Some m
             | None => stop
             end
           else stop
       end.

Fixpoint rmatch (r : regex) (k : mstate -> option mstate) (s : mstate)
    : option mstate :=
  match r with
  | Eps => k s
  | Chr p =>
      match rest s with
      | c :: l => if p c then k (advance c l s) else None
      | [] => None
      end
  | Rep p lo hi => rep p lo hi k (pos s) (prev s) (groups s) (rest s)
  | Seq r1 r2 => rmatch r1 (rmatch r2 k) s
  | Alt r1 r2 =>
      match rmatch r1 k s with
      | Some m => Some m
      | None => rmatch r2 k s
      end
  | Group n r1 =>
      rmatch r1 (fun s1 => k (set_group n (firstn (pos s1 - pos s) (rest s)) s1)) s
  | WordB => if at_boundary s then k s else None
  end.

(** A match attempt at the cursor. *)
Definition match_here (r : regex) (n : nat) (pv : option char) (l : str)
    : option mstate :=
  rmatch r (fun s => Some s) (MState n pv l []).

(** [re.search]: the first position, from the left, where the pattern
    matches. *)
Fixpoint search_from (r : regex) (n : nat) (pv : option char) (l : str)
    : option mstate :=
  match match_here r n pv l with
  | Some m => Some m
  | None =>
      match l with
      | [] => None
      | c :: l1 => search_from r (S n) (Some c) l1
      end
  end.

Definition search (r : regex) (text : str) : option mstate :=
  search_from r 0 None text.

(** *** Character classes and pattern building *)

Definition c_lit (x : char) : char -> bool := fun c => (c =? x)%N.
Definition c_range (a b : char) : char -> bool :=
  fun c => ((a <=? c) && (c <=? b))%N.
Definition c_set (xs : list char) : char -> bool :=
  fun c => existsb (N.eqb c) xs.

(** Under [re.IGNORECASE] a cased letter of the pattern is compiled to its
    lower case, and a character of the text matches when its lower case is
    that letter or one of the letter's extra equivalents in the table
    [_ignorecase_fixes] of [sre_compile]: the dotless i for [i] and the long
    s for [s], among the letters of the source's patterns.  A character
    without case stays an exact literal. *)
Definition ignorecase_fixes (lo : char) : list char :=
  if (lo =? 105)%N then [305%N]
  else if (lo =? 115)%N then [383%N]
  else [].

Definition ascii_uncased (x : char) : bool :=
  is_ascii x && negb (ascii_upper_letter x || ascii_lower_letter x).

Definition c_lit_i (x : char) : char -> bool :=
  if ascii_uncased x then c_lit x
  else let lo := ascii_tolower x in
       fun c => existsb (N.eqb (tolower c)) (lo :: ignorecase_fixes lo).

Definition c_set_i (xs : list char) : char -> bool :=
  fun c => existsb (fun x => c_lit_i x c) xs.

Fixpoint seq_of (rs : list regex) : regex :=
  match rs with
  | [] => Eps
  | [r] => r
  | r :: rs1 => Seq r (seq_of rs1)
  end.

(** A literal, and a literal under [re.IGNORECASE].  The letters of the
    source's patterns outside ASCII are already in lower case. *)
Definition lit (s : str) : regex := seq_of (map (fun x => Chr (c_lit x)) s).
Definition lit_i (s : str) : regex := seq_of (map (fun x => Chr (c_lit_i x)) s).

Definition opt (p : char -> bool) : regex := Rep p 0 (Some 1).
Definition star (p : char -> bool) : regex := Rep p 0 None.
Definition times (p : char -> bool) (n : nat) : regex := Rep p n (Some n).
Definition between (p : char -> bool) (lo hi : nat) : regex := Rep p lo (Some hi).

End Matcher.
End Re.

Import Re.

(** ** Floating-point numbers: [float(s)] and the format [.2f] *)

Module PyFloat.
Section Float.
Context {U : Unicode}.

Definition prec : Z := 53.
Definition emax : Z := 1024.

Definition zero : spec_float := S754_zero false.

(** The binary64 number nearest to [num / den], ties to even. *)
Definition of_ratio (num : N) (den : positive) : spec_float :=
  match num with
  | N0 => zero
  | Npos p =>
      let '(q, e, l) := SFdiv_core_binary prec emax (Zpos p) 0 (Zpos den) 0 in
      binary_round_aux prec emax false q e l
  end.

(** The leading decimal digits of a string, as their values, and what
    follows them. *)
Fixpoint span_digits (s : str) : list N * str :=
  match s with
  | [] => ([], [])
  | c :: s1 =>
      match todecimal c with
      | Some d => let '(ds, r) := span_digits s1 in (d :: ds, r)
      | None => ([], s)
      end
  end.

Definition digits_value (ds : list N) : N :=
  fold_left (fun a d => (10 * a + d)%N) ds 0%N.

Definition pow10 (n : nat) : positive := Nat.iter n (Pos.mul 10) 1%positive.

(** [float(s)] on the unsigned decimal literals [digits], [digits.digits],
    [digits.] and [.digits]: the nearest binary64 number.  [None] stands for
    [ValueError]; signs, exponents, underscores, surrounding white space and
    the special values are not covered, and no string of that kind reaches
    [float] in [parse_text]. *)
Definition of_str (s : str) : option spec_float :=
  let '(ip, r) := span_digits s in
  match r with
  | [] =>
      match ip with
      | [] => None
      | _ :: _ => Some (of_ratio (digits_value ip) 1)
      end
  | c :: r1 =>
      if (c =? 46)%N then
        let '(fp, r2) := span_digits r1 in
        match r2, ip ++ fp with
        | [], _ :: _ =>
            Some (of_ratio (digits_value (ip ++ fp)) (pow10 (List.length fp)))
        | _, _ => None
        end
      else None
  end.

(** [x > 0] *)
Definition gt0 (x : spec_float) : bool := SFltb zero x.

(** A finite magnitude [m * 2^e] in hundredths, rounded to the nearest
    integer, ties to even. *)
Definition hundredths (m : positive) (e : Z) : N :=
  let n := (100 * Npos m)%N in
  match e with
  | Z0 => n
  | Zpos k => (n * Npos (Pos.pow 2 k))%N
  | Zneg k =>
      let d := Npos (Pos.pow 2 k) in
      let q := (n / d)%N in
      let r := (n mod d)%N in
      match (2 * r ?= d)%N with
      | Lt => q
      | Eq => if N.even q then q else (q + 1)%N
      | Gt => (q + 1)%N
      end
  end.

Definition decimal (n : N) : str := utf8 (NilZero.string_of_uint (N.to_uint n)).

Definition digit_char (d : N) : char := (48 + d)%N.

(** [h] hundredths printed with two fractional digits. *)
Definition fixed2 (h : N) : str :=
  decimal (h / 100) ++ py "." ++
  [digit_char ((h / 10) mod 10); digit_char (h mod 10)].

Definition sign (s : bool) : str := if s then py "-" else [].

(** [f"{x:.2f}"] *)
Definition format_2f (x : spec_float) : str :=
  match x with
  | S754_nan => py "nan"
  | S754_infinity s => sign s ++ py "inf"
  | S754_zero s => sign s ++ py "0.00"
  | S754_finite s m e => sign s ++ fixed2 (hundredths m e)
  end.

End Float.
End PyFloat.

(** ** The field extractor: [parse_text] *)

(** An operation that may raise: [None] is the raised exception. *)
Definition bind {A B : Type} (x : option A) (f : A -> option B) : option B :=
  match x with Some a => f a | None => None end.

Notation "x <- e ;; k" := (bind e (fun x => k))
  (at level 61, e at next level, right associativity).

Record fields : Type := Fields {
  f_iban : str;
  f_amount : spec_float;
  f_currency : str;
  f_vs : str
}.

Section Extractor.
Context {U : Unicode}.

Definition d09 : char -> bool := c_range (ch "0") (ch "9").

(** [NN\s?NNNN\s?NNNN\s?NNNN\s?NNNN\s?NNNN] with [N] for [[0-9]] *)
Definition iban_tail : list regex :=
  [times d09 2; opt isspace; times d09 4; opt isspace; times d09 4;
   opt isspace; times d09 4; opt isspace; times d09 4; opt isspace;
   times d09 4].

Definition iban_re : regex :=
  Group 1 (Alt (seq_of (lit (py "SK") :: iban_tail))
               (seq_of (lit (py "CZ") :: iban_tail))).

(** [\d{1,10}[,.]\d{2}] *)
Definition number_re : regex :=
  seq_of [between isdecimal 1 10; Chr (c_set (py ",.")); times isdecimal 2].

(** [EUR|€|Kč|CZK] under [re.IGNORECASE]; the euro sign has no case. *)
Definition marker_re : regex :=
  Alt (lit_i (py "EUR"))
      (Alt (lit (py "€")) (Alt (lit_i (py "Kč")) (lit_i (py "CZK")))).

Definition amount_re : regex :=
  seq_of [Group 1 number_re; opt isspace; Group 2 marker_re].

Definition amount_re_rev : regex :=
  seq_of [Group 1 marker_re; opt isspace; Group 2 number_re].

(** [(VS|Variabiln[yý] symbol):?\s*(\d{1,10})] under [re.IGNORECASE] *)
Definition label_re : regex :=
  Alt (lit_i (py "VS"))
      (seq_of [lit_i (py "Variabiln"); Chr (c_set_i (py "yý"));
               lit_i (py " symbol")]).

Definition vs_re : regex :=
  seq_of [Group 1 label_re; opt (c_lit (ch ":")); star isspace;
          Group 2 (between isdecimal 1 10)].

(** [\b(\d{10})\b] *)
Definition vs_standalone_re : regex :=
  seq_of [WordB; Group 1 (times isdecimal 10); WordB].

Definition parse_text (text : str) : option fields :=
  let iban_match := search iban_re text in
  iban <- match iban_match with
          | Some m => g <- group m 1 ;; Some (replace (ch " ") [] g)
          | None => Some []
          end ;;
  (* Try to find amount with EUR/CZK symbols or keywords *)
  amount_str <- match search amount_re text with
                | None =>
                    match search amount_re_rev text with
                    | Some m => group m 2
                    | None => Some []
                    end
                | Some m => group m 1
                end ;;
  amount <- (if truthy amount_str
             then PyFloat.of_str (replace (ch ",") (py ".") amount_str)
             else Some PyFloat.zero) ;;
  (* Detect currency *)
  let currency :=
    if contains (py "CZK") (upper text) || contains (py "KČ") (upper text)
       || (truthy iban && startswith (py "CZ") iban)
    then py "CZK" else py "EUR" in
  (* Find variable symbol *)
  vs <- match search vs_re text with
        | Some m => group m 2
        | None => Some []
        end ;;
  vs <- (if negb (truthy vs)
         then (* If no explicit "VS" found, look for a standalone 10-digit number *)
              match search vs_standalone_re text with
              | Some m => group m 1
              | None => Some []
              end
         else Some vs) ;;
  Some (Fields iban amount currency vs).

End Extractor.

(** ** The QR Platba encoder: [generate_qr_platba] *)

Section Encoder.
Context {U : Unicode}.

Definition generate_qr_platba (iban : str) (amount : spec_float)
    (currency vs msg : str) : str :=
  let qr_string := py "SPD*1.0*ACC:" ++ iban ++ py "*" in
  let qr_string :=
    if PyFloat.gt0 amount
    then qr_string ++ py "AM:" ++ PyFloat.format_2f amount ++ py "*"
    else qr_string in
  let qr_string :=
    if truthy currency then qr_string ++ py "CC:" ++ currency ++ py "*"
    else qr_string in
  let qr_string :=
    if truthy msg then qr_string ++ py "MSG:" ++ upper msg ++ py "*"
    else qr_string in
  let qr_string :=
    if truthy vs then qr_string ++ py "X-VS:" ++ vs ++ py "*"
    else qr_string in
  qr_string.

End Encoder.

(** ** The payment form: what a submission does

    The form talks to two libraries that are not part of the repository:
    Streamlit, whose calls are recorded as events, and [pay_by_square],
    whose [generate] is a parameter that returns a payload or raises. *)

Inductive country : Type :=
| Slovak   (* the first radio option, the Slovak invoice *)
| Czech.   (* the second radio option, the Czech invoice *)

Inductive outcome : Type :=
| Returned (payload : str)
| Raised (e : str).

Inductive event : Type :=
| st_error (m : str)
| st_warning (m : str)
| st_info (m : str)
| st_image (payload : str)
| st_success (m : str)
| call_pay_by_square (iban : str) (amount : spec_float) (currency vs msg : str).

(** The messages of the form. *)
Definition msg_iban_required : str := py "IBAN je povinný údaj.".
Definition msg_not_slovak : str :=
  py "Zvolili ste slovenskú faktúru, ale IBAN nevyzerá ako slovenský (nezačína na SK).".
Definition msg_not_czech : str :=
  py "Zvolili ste českú faktúru, ale IBAN nevyzerá ako český (nezačína na CZ).".
Definition msg_generating_pbs : str := py "Generujem PAY by square QR kód...".
Definition msg_generating_platba : str := py "Generujem QR Platba kód...".
Definition msg_pbs_failed : str := py "Chyba pri generovaní PAY by square kódu: ".
Definition msg_generated : str := py "QR kód úspešne vygenerovaný!".
Definition msg_not_generated : str :=
  py "Nepodarilo sa vygenerovať QR kód. Skontrolujte zadané údaje.".

Section Form.
Context {U : Unicode}.
Variable pay_by_square_generate :
  str -> spec_float -> str -> str -> str -> outcome.

(** A computation that logs events. *)
Definition ui (A : Type) : Type := list event * A.
Definition ret {A : Type} (a : A) : ui A := ([], a).
Definition emit (e : event) : ui unit := ([e], tt).
Definition then_ {A B : Type} (x : ui A) (f : A -> ui B) : ui B :=
  let '(l1, a) := x in let '(l2, b) := f a in (l1 ++ l2, b).
Definition when (b : bool) (x : ui unit) : ui unit := if b then x else ret tt.

Definition generate_pay_by_square (iban : str) (amount : spec_float)
    (currency vs msg : str) : ui (option str) :=
  then_ (emit (call_pay_by_square iban amount currency vs msg)) (fun _ =>
  match pay_by_square_generate iban amount currency vs msg with
  | Returned payload => ret (Some payload)
  | Raised e =>
      then_ (emit (st_error (msg_pbs_failed ++ e)))
            (fun _ => ret None)
  end).

(** The [if country == ... elif country == ...] of the handler: the
    warning, the notice and the encoder of the chosen country.  The result
    is the value of [qr_data]. *)
Definition dispatch (c : country) (iban : str) (amount : spec_float)
    (currency vs msg : str) : ui (option str) :=
  match c with
  | Slovak =>
      then_ (when (negb (startswith (py "SK") iban))
               (emit (st_warning msg_not_slovak)))
        (fun _ =>
      then_ (emit (st_info msg_generating_pbs))
        (fun _ => generate_pay_by_square iban amount currency vs msg))
  | Czech =>
      then_ (when (negb (startswith (py "CZ") iban))
               (emit (st_warning msg_not_czech)))
        (fun _ =>
      then_ (emit (st_info msg_generating_platba))
        (fun _ => ret (Some (generate_qr_platba iban amount currency vs msg))))
  end.

(** [if qr_data:] holds for a payload that is neither [None] nor empty.
    The QR renderer is outside the repository: [st_image] stands for
    rendering the payload and showing the picture. *)
Definition render (qr_data : option str) : ui (option str) :=
  match qr_data with
  | Some d =>
      if truthy d then
        then_ (emit (st_image d)) (fun _ =>
        then_ (emit (st_success msg_generated))
          (fun _ => ret (Some d)))
      else
        then_ (emit (st_error msg_not_generated))
          (fun _ => ret None)
  | None =>
      then_ (emit (st_error msg_not_generated))
        (fun _ => ret None)
  end.

(** The body of [if submitted:].  The result is the payload that was
    rendered, if any. *)
Definition submit (c : country) (iban : str) (amount : spec_float)
    (currency vs msg : str) : ui (option str) :=
  if negb (truthy iban) then
    then_ (emit (st_error msg_iban_required)) (fun _ => ret None)
  else
    then_ (dispatch c iban amount currency vs msg) render.

End Form.

(** ** What a pattern matches

    A declarative reading of the patterns, against which the matcher is
    proved sound: [denote r s s1] holds when [r] can take the cursor from
    [s] to [s1]. *)

Section Semantics.
Context {U : Unicode}.

Definition holds (p : char -> bool) (cs : str) : Prop :=
  Forall (fun c => p c = true) cs.

Definition within (hi : option nat) (n : nat) : Prop :=
  match hi with Some h => n <= h | None => True end.

Definition last_char (cs : str) (pv : option char) : option char :=
  last (map Some cs) pv.

(** The cursor after the characters [cs], with [l] left to read. *)
Definition after (cs l : str) (s : mstate) : mstate :=
  MState (List.length cs + pos s) (last_char cs (prev s)) l (groups s).

Fixpoint denote (r : regex) (s s1 : mstate) : Prop :=
  match r with
  | Eps => s1 = s
  | Chr p => exists c, p c = true /\ rest s = c :: rest s1 /\ s1 = after [c] (rest s1) s
  | Rep p lo hi =>
      exists cs, holds p cs /\ lo <= List.length cs /\ within hi (List.length cs)
                 /\ rest s = cs ++ rest s1 /\ s1 = after cs (rest s1) s
  | Seq r1 r2 => exists s2, denote r1 s s2 /\ denote r2 s2 s1
  | Alt r1 r2 => denote r1 s s1 \/ denote r2 s s1
  | Group n r1 =>
      exists s2, denote r1 s s2
                 /\ s1 = set_group n (firstn (pos s2 - pos s) (rest s)) s2
  | WordB => at_boundary s = true /\ s1 = s
  end.

(** The match attempt of [re.search] at offset [i] of the text. *)
Definition match_at (r : regex) (text : str) (i : nat) : option mstate :=
  match_here r i (last_char (firstn i text) None) (skipn i text).

(** The cursor of that attempt, and what it means for the pattern to match
    at offset [i], and somewhere in the text. *)
Definition start_at (text : str) (i : nat) : mstate :=
  MState i (last_char (firstn i text) None) (skipn i text) [].

Definition matches_at (r : regex) (text : str) (i : nat) : Prop :=
  exists s1, denote r (start_at text i) s1.

Definition occurs_re (r : regex) (text : str) : Prop :=
  exists i, i <= List.length text /\ matches_at r text i.

(** The pattern matches nowhere before the end of [pre]. *)
Definition first_at (r : regex) (text pre : str) : Prop :=
  forall i, i < List.length pre -> ~ matches_at r text i.

(** Patterns without a capturing group. *)
Fixpoint group_free (r : regex) : bool :=
  match r with
  | Seq r1 r2 | Alt r1 r2 => group_free r1 && group_free r2
  | Group _ _ => false
  | _ => true
  end.

(** The text of an amount: one to ten digits, a comma or a dot, and two
    digits. *)
Definition is_amount_text (g : str) : Prop :=
  exists ip sep fp,
    g = ip ++ sep :: fp
    /\ holds isdecimal ip /\ 1 <= List.length ip <= 10
    /\ (sep = ch "," \/ sep = ch ".")
    /\ holds isdecimal fp /\ List.length fp = 2.

Definition digit_of (c : char) : list N :=
  match todecimal c with Some d => [d] | None => [] end.

(** The number an amount text denotes: its digits are a count of
    hundredths, and the value is the nearest binary64 number. *)
Definition amount_value (g : str) : spec_float :=
  PyFloat.of_ratio (PyFloat.digits_value (flat_map digit_of g)) 100.

(** A reference code: [lo] to [hi] decimal digits. *)
Definition is_digits (lo hi : nat) (g : str) : Prop :=
  holds isdecimal g /\ lo <= List.length g <= hi.

End Semantics.

(** ** The payload format in the words of the specification *)

Section Format.
Context {U : Unicode}.

(** A conditional segment [KEY:value*]. *)
Definition segment (present : bool) (key value : str) : str :=
  if present then key ++ value ++ py "*" else [].

(** [SPD*1.0*ACC:{id}*[AM:{amount:.2f}*][CC:{code}*][MSG:{NOTE}*][X-VS:{ref}*]] *)
Definition encodeB_format (iban : str) (amount : spec_float)
    (currency vs msg : str) : str :=
  py "SPD*1.0*" ++ py "ACC:" ++ iban ++ py "*"
  ++ segment (PyFloat.gt0 amount) (py "AM:") (PyFloat.format_2f amount)
  ++ segment (truthy currency) (py "CC:") currency
  ++ segment (truthy msg) (py "MSG:") (upper msg)
  ++ segment (truthy vs) (py "X-VS:") vs.



(** [f] is a normal binary64 number [m * 2^-k] at most half a unit in the
    last place away from [num / den]: a nearest binary64 number. *)
Definition is_nearest_binary64 (num den : Z) (f : spec_float) : Prop :=
  match f with
  | S754_finite false m (Zneg k) =>
      (2 ^ 52 <= Zpos m < 2 ^ 53)%Z
      /\ (2 * Z.abs (Zpos m * den - num * 2 ^ Zpos k) <= den)%Z
  | _ => False
  end.


(** The binary64 numbers nearest to 123.45 and to 9.90. *)
Definition float_123_45 : spec_float := S754_finite false 8687021468732621 (-46).
Definition float_9_90 : spec_float := S754_finite false 5573204538870989 (-49).

End Format.

(** ** The extraction rules in the words of the specification *)

Section Rules.
Context {U : Unicode}.

(** [s] is [p] up to the case of its letters, as [re.IGNORECASE] has it. *)
Definition ci_equal (p s : str) : Prop :=
  Forall2 (fun x c => c_lit_i x c = true) p s.

(** A block of [n] digits [0-9]. *)
Definition is_block (n : nat) (b : str) : Prop :=
  holds d09 b /\ List.length b = n.

(** What may separate two blocks of an identifier in the text: nothing, or
    one white-space character. *)
Definition is_gap (g : str) : Prop :=
  g = [] \/ exists w, g = [w] /\ isspace w = true.

(** A gap that is nothing or one space U+0020. *)
Definition is_space_gap (g : str) : Prop := g = [] \/ g = py " ".

(** An identifier as it stands in a text: the country prefix, two digits and
    five blocks of four digits, with a gap before each block of four. *)
Definition iban_layout (prefix b1 g1 b2 g2 b3 g3 b4 g4 b5 g5 b6 : str) : str :=
  prefix ++ b1 ++ g1 ++ b2 ++ g2 ++ b3 ++ g3 ++ b4 ++ g4 ++ b5 ++ g5 ++ b6.

Definition is_iban_layout (t : str) : Prop :=
  exists prefix b1 g1 b2 g2 b3 g3 b4 g4 b5 g5 b6,
    t = iban_layout prefix b1 g1 b2 g2 b3 g3 b4 g4 b5 g5 b6
    /\ (prefix = py "SK" \/ prefix = py "CZ")
    /\ is_block 2 b1 /\ is_gap g1 /\ is_block 4 b2 /\ is_gap g2
    /\ is_block 4 b3 /\ is_gap g3 /\ is_block 4 b4 /\ is_gap g4
    /\ is_block 4 b5 /\ is_gap g5 /\ is_block 4 b6.

(** A currency marker: [EUR], the euro sign, [Kč] or [CZK], the letters in
    any case. *)
Definition is_marker (mk : str) : Prop :=
  ci_equal (py "EUR") mk \/ mk = py "€"
  \/ ci_equal (py "Kč") mk \/ ci_equal (py "CZK") mk.

(** The label of a reference code: [VS], or [Variabilny symbol] with or
    without the acute accent, in any case. *)
Definition is_label (lab : str) : Prop :=
  ci_equal (py "VS") lab
  \/ exists a y b,
       lab = a ++ y :: b
       /\ ci_equal (py "Variabiln") a
       /\ c_set_i (py "yý") y = true
       /\ ci_equal (py " symbol") b.

(** No word character right before the end of [pre], or right at the start
    of [post]. *)
Definition no_word_before (pre : str) : Prop :=
  isword_opt (last_char pre None) = false.
Definition no_word_after (post : str) : Prop :=
  isword_opt (hd_error post) = false.

(** Account identifier: the first identifier layout of the text with its
    spaces removed; the empty string when the pattern does not match. *)
Definition iban_rule (text iban : str) : Prop :=
  match search iban_re text with
  | Some m =>
      exists pre t post,
        text = pre ++ t ++ post /\ is_iban_layout t
        /\ first_at iban_re text pre
        /\ group m 1 = Some t /\ iban = replace (ch " ") [] t
  | None => iban = []
  end.

(** Amount: the first number that stands before a currency marker; failing
    that, the first number that stands after one; failing that, 0.0. *)
Definition amount_rule (text : str) (amount : spec_float) : Prop :=
  match search amount_re text with
  | Some m =>
      exists pre g ws mk post,
        text = pre ++ g ++ ws ++ mk ++ post
        /\ is_amount_text g /\ is_gap ws /\ is_marker mk
        /\ first_at amount_re text pre
        /\ group m 1 = Some g /\ amount = amount_value g
  | None =>
      match search amount_re_rev text with
      | Some m =>
          exists pre mk ws g post,
            text = pre ++ mk ++ ws ++ g ++ post
            /\ is_marker mk /\ is_gap ws /\ is_amount_text g
            /\ first_at amount_re_rev text pre
            /\ group m 2 = Some g /\ amount = amount_value g
      | None => amount = PyFloat.zero
      end
  end.

(** Currency: CZK when the upper-cased text contains [CZK] or [KČ], or when
    the identifier starts with [CZ]; EUR otherwise. *)
Definition czk_signal (text iban : str) : bool :=
  contains (py "CZK") (upper text) || contains (py "KČ") (upper text)
  || startswith (py "CZ") iban.

Definition currency_rule (text iban currency : str) : Prop :=
  currency = if czk_signal text iban then py "CZK" else py "EUR".

(** Reference code: the digits after the first label; failing that, the
    first standalone run of ten digits; failing that, the empty string. *)
Definition vs_rule (text vs : str) : Prop :=
  match search vs_re text with
  | Some m =>
      exists pre lab col ws g post,
        text = pre ++ lab ++ col ++ ws ++ g ++ post
        /\ is_label lab /\ (col = [] \/ col = py ":") /\ holds isspace ws
        /\ is_digits 1 10 g
        /\ first_at vs_re text pre
        /\ group m 2 = Some g /\ vs = g
  | None =>
      match search vs_standalone_re text with
      | Some m =>
          exists pre g post,
            text = pre ++ g ++ post
            /\ is_digits 10 10 g /\ no_word_before pre /\ no_word_after post
            /\ first_at vs_standalone_re text pre
            /\ group m 1 = Some g /\ vs = g
      | None => vs = []
      end
  end.

(** What a text may contain: an identifier layout; a number followed by a
    marker, or following it, with at most one white-space character in
    between; a labelled reference; a standalone run of ten digits. *)
Definition has_iban (text : str) : Prop :=
  exists pre t post, text = pre ++ t ++ post /\ is_iban_layout t.

Definition has_amount (text : str) : Prop :=
  exists pre g ws mk post,
    text = pre ++ g ++ ws ++ mk ++ post
    /\ is_amount_text g /\ is_gap ws /\ is_marker mk.

Definition has_amount_rev (text : str) : Prop :=
  exists pre mk ws g post,
    text = pre ++ mk ++ ws ++ g ++ post
    /\ is_marker mk /\ is_gap ws /\ is_amount_text g.

Definition has_labelled_vs (text : str) : Prop :=
  exists pre lab col ws g post,
    text = pre ++ lab ++ col ++ ws ++ g ++ post
    /\ is_label lab /\ (col = [] \/ col = py ":") /\ holds isspace ws
    /\ is_digits 1 10 g.

Definition has_standalone_vs (text : str) : Prop :=
  exists pre g post,
    text = pre ++ g ++ post
    /\ is_digits 10 10 g /\ no_word_before pre /\ no_word_after post.

(** [r] is sure to match [cs] in front of [l]: whatever comes next in the
    pattern is tried right after [cs], and its success is the result. *)
Definition sure (r : regex) (cs l : str) : Prop :=
  forall k s m,
    rest s = cs ++ l -> k (after cs l s) = Some m -> rmatch r k s = Some m.

(** [r] can match [cs] wherever [cs] stands. *)
Definition can (r : regex) (cs : str) : Prop :=
  forall s l, rest s = cs ++ l -> exists s1, denote r s s1 /\ rest s1 = l.


(** [s] begins with [p]. *)
Definition begins (p s : str) : Prop := exists t, s = p ++ t.

End Rules.


(** ** The upload handler and the defaults of the form

    Lines 31-54 and 121-169 of the source.  The libraries that read the
    file and the pictures ([pdf2image], [PIL] and [pytesseract]) are
    parameters: a call returns a value or raises. *)

Inductive attempt (A : Type) : Type :=
| Done (a : A)
| Failed (e : str).

Arguments Done {A} a.
Arguments Failed {A} e.

Definition msg_pdf_failed : str := py "Chyba pri spracovaní PDF: ".
Definition msg_image_failed : str := py "Chyba pri otváraní obrázku: ".
Definition msg_ocr_failed : str := py "Chyba pri OCR spracovaní: ".
Definition msg_extracted : str :=
  py "Text extrahovaný! Skontrolujte a upravte údaje nižšie.".
Definition msg_no_text : str :=
  py "Nepodarilo sa extrahovať žiadny text. Vyplňte údaje manuálne.".
Definition msg_file_failed : str := py "Nepodarilo sa spracovať súbor.".

(** [a == b] on strings *)
Fixpoint str_eqb (a b : str) : bool :=
  match a, b with
  | [], [] => true
  | x :: a1, y :: b1 => (x =? y)%N && str_eqb a1 b1
  | _, _ => false
  end.

(** [st.session_state]: each of the four keys is present or not. *)
Record session_state : Type := SessionState {
  ss_iban : option str;
  ss_amount : option spec_float;
  ss_currency : option str;
  ss_vs : option str
}.

Section Upload.
Context {U : Unicode}.
Variables upload image : Type.
Variable file_type : upload -> str.
Variable convert_from_bytes : upload -> attempt (list image).
Variable image_open : upload -> attempt image.
Variable image_to_string : image -> attempt str.

(** [s.strip()]: the white space at both ends is removed. *)
Fixpoint lstrip (s : str) : str :=
  match s with
  | [] => []
  | c :: s1 => if isspace c then lstrip s1 else s
  end.

Definition rstrip (s : str) : str := rev (lstrip (rev s)).
Definition strip (s : str) : str := rstrip (lstrip s).

Definition process_file (uploaded_file : upload) : ui (list image) :=
  let images := [] in
  if str_eqb (file_type uploaded_file) (py "application/pdf") then
    match convert_from_bytes uploaded_file with
    | Done pdf_images => ret (images ++ pdf_images)
    | Failed e =>
        then_ (emit (st_error (msg_pdf_failed ++ e))) (fun _ => ret images)
    end
  else
    match image_open uploaded_file with
    | Done img => ret (images ++ [img])
    | Failed e =>
        then_ (emit (st_error (msg_image_failed ++ e))) (fun _ => ret images)
    end.

Definition extract_text_from_image (img : image) : ui str :=
  match image_to_string img with
  | Done text => ret text
  | Failed e => then_ (emit (st_error (msg_ocr_failed ++ e))) (fun _ => ret [])
  end.

(** [for image in images: full_text += extract_text_from_image(image) + "\n"] *)
Fixpoint read_pages (images : list image) (full_text : str) : ui str :=
  match images with
  | [] => ret full_text
  | img :: images1 =>
      then_ (extract_text_from_image img)
        (fun text => read_pages images1 (full_text ++ text ++ [10%N]))
  end.

Definition reset_state : session_state :=
  SessionState (Some []) (Some PyFloat.zero) (Some (py "EUR")) (Some []).

Definition state_of (f : fields) : session_state :=
  SessionState (Some (f_iban f)) (Some (f_amount f)) (Some (f_currency f))
    (Some (f_vs f)).

(** The body of [if uploaded_file:], lines 123-142.  [None] as a result
    stands for an exception that [parse_text] would raise. *)
Definition on_upload (uploaded_file : option upload) (st : session_state)
    : ui (option session_state) :=
  match uploaded_file with
  | None => ret (Some st)
  | Some file =>
      let st := reset_state in
      then_ (process_file file) (fun images =>
        if match images with [] => false | _ :: _ => true end then
          then_ (read_pages images []) (fun full_text =>
            if truthy (strip full_text) then
              match parse_text full_text with
              | Some f =>
                  then_ (emit (st_success msg_extracted))
                    (fun _ => ret (Some (state_of f)))
              | None => ret None
              end
            else
              then_ (emit (st_warning msg_no_text)) (fun _ => ret (Some st)))
        else
          then_ (emit (st_error msg_file_failed)) (fun _ => ret (Some st)))
  end.

(** Lines 146-153: a missing key gets its default. *)
Definition or_default {A : Type} (x : option A) (d : A) : A :=
  match x with Some a => a | None => d end.

Definition fill_defaults (st : session_state) : fields :=
  Fields (or_default (ss_iban st) []) (or_default (ss_amount st) PyFloat.zero)
    (or_default (ss_currency st) (py "EUR")) (or_default (ss_vs st) []).

(** Lines 155-164: the preselected country. *)
Definition default_country_index (iban : str) : nat :=
  if truthy iban && startswith (py "CZ") iban then 1 else 0.

Definition radio (index : nat) : country :=
  match index with O => Slovak | _ => Czech end.

(** Line 169: the preselected currency of the select box. *)
Definition currency_index (currency : str) : nat :=
  if str_eqb currency (py "EUR") then 0 else 1.

Definition selectbox (index : nat) : str :=
  match index with O => py "EUR" | _ => py "CZK" end.

(** What the form shows before the user edits anything: the country, and
    the identifier, amount, currency, reference and (empty) note. *)
Definition form_initial (st : session_state)
    : country * (str * spec_float * str * str * str) :=
  let f := fill_defaults st in
  (radio (default_country_index (f_iban f)),
   (f_iban f, f_amount f, selectbox (currency_index (f_currency f)), f_vs f, [])).

(** Pages whose text is blank, or that cannot be read. *)
Definition blank_page (img : image) : Prop :=
  match image_to_string img with
  | Done text => holds isspace text
  | Failed _ => True
  end.

(** What a page adds to the text, and what it reports. *)
Definition page_text (img : image) : str :=
  match image_to_string img with Done text => text | Failed _ => [] end.

Definition page_errors (img : image) : list event :=
  match image_to_string img with
  | Done _ => []
  | Failed e => [st_error (msg_ocr_failed ++ e)]
  end.

(** The texts of the pages, each followed by a line break. *)
Definition joined_text (images : list image) : str :=
  flat_map (fun img => page_text img ++ [10%N]) images.

End Upload.

Arguments page_text {image}.
Arguments page_errors {image}.
Arguments joined_text {image}.
Arguments process_file {upload image}.
Arguments extract_text_from_image {image}.
Arguments read_pages {image}.
Arguments on_upload {U upload image}.
Arguments blank_page {U image}.

(** Decimal digits have values below ten: a fact of the Unicode database
    that the printing of an amount relies on. *)
Definition digit_values_below_ten {U : Unicode} : Prop :=
  forall c d, todecimal c = Some d -> (d < 10)%N.

(** * Properties *)

(** ** Soundness of the matcher *)

Section MatcherFacts.
Context {U : Unicode}.

Lemma last_char_cons c cs pv :
  last_char (c :: cs) pv = last_char cs (Some c).
Proof.
  unfold last_char. revert c pv.
  induction cs as [|d cs IH]; intros c pv; [reflexivity|].
  change (map Some (c :: d :: cs)) with (Some c :: map Some (d :: cs)).
  change (last (Some c :: map Some (d :: cs)) pv)
    with (last (map Some (d :: cs)) pv).
  rewrite (IH d pv), (IH d (Some c)). reflexivity.
Qed.

Lemma rep_sound p l : forall lo hi k n pv gs m,
  rep p lo hi k n pv gs l = Some m ->
  exists cs l1,
    l = cs ++ l1 /\ holds p cs /\ lo <= List.length cs
    /\ within hi (List.length cs)
    /\ k (MState (List.length cs + n) (last_char cs pv) l1 gs) = Some m.
Proof.
  assert (Hstop : forall lo hi (k : mstate -> option mstate) n pv gs l0 m,
    match lo with O => k (MState n pv l0 gs) | S _ => None end = Some m ->
    exists cs l1, l0 = cs ++ l1 /\ holds p cs /\ lo <= List.length cs
      /\ within hi (List.length cs)
      /\ k (MState (List.length cs + n) (last_char cs pv) l1 gs) = Some m).
  { intros lo hi k n pv gs l0 m H. destruct lo; [|discriminate].
    exists [], l0. repeat split; try constructor.
    - destruct hi; simpl; [lia|exact I].
    - exact H. }
  induction l as [|c l IH]; intros lo hi k n pv gs m H.
  - simpl in H. destruct (hi_is_zero hi); eapply Hstop; eassumption.
  - simpl in H. destruct (hi_is_zero hi) eqn:Hz; [eapply Hstop; eassumption|].
    destruct (p c) eqn:Hp; [|eapply Hstop; eassumption].
    destruct (rep p (Nat.pred lo) (dec_hi hi) k (S n) (Some c) gs l) eqn:Hr;
      [|eapply Hstop; eassumption].
    inversion H; subst m0; clear H.
    destruct (IH _ _ _ _ _ _ _ Hr) as (cs & l1 & -> & Hcs & Hlo & Hhi & Hk).
    exists (c :: cs), l1. repeat split.
    + constructor; assumption.
    + simpl. lia.
    + destruct hi as [[|h]|]; simpl in *; try discriminate; try exact I. lia.
    + rewrite last_char_cons. simpl List.length.
      replace (S (List.length cs) + n) with (List.length cs + S n) by lia.
      exact Hk.
Qed.

Theorem rmatch_sound r : forall k s m,
  rmatch r k s = Some m -> exists s1, denote r s s1 /\ k s1 = Some m.
Proof.
  induction r as [|p|p lo hi|r1 IH1 r2 IH2|r1 IH1 r2 IH2|n r1 IH1|];
    intros k s m H; simpl in H.
  - exists s. split; [reflexivity|exact H].
  - destruct (rest s) as [|c l] eqn:Hrest; [discriminate|].
    destruct (p c) eqn:Hp; [|discriminate].
    exists (advance c l s). split; [|exact H].
    exists c. repeat split; try assumption.
  - destruct (rep_sound _ _ _ _ _ _ _ _ _ H) as (cs & l1 & Hl & Hcs & Hlo & Hhi & Hk).
    eexists. split; [|exact Hk].
    exists cs. repeat split; assumption.
  - destruct (IH1 _ _ _ H) as (s2 & H1 & H2).
    destruct (IH2 _ _ _ H2) as (s1 & H3 & H4).
    exists s1. split; [exists s2; split; assumption|exact H4].
  - destruct (rmatch r1 k s) eqn:H1.
    + inversion H; subst m0.
      destruct (IH1 _ _ _ H1) as (s1 & Hd & Hk). exists s1. split; [left|]; assumption.
    + destruct (IH2 _ _ _ H) as (s1 & Hd & Hk). exists s1. split; [right|]; assumption.
  - destruct (IH1 _ _ _ H) as (s2 & Hd & Hk).
    eexists. split; [|exact Hk]. exists s2. split; [exact Hd|reflexivity].
  - destruct (at_boundary s) eqn:Hb; [|discriminate].
    exists s. repeat split; assumption.
Qed.

End MatcherFacts.

Section SearchFacts.
Context {U : Unicode}.

Lemma last_char_app cs c pv : last_char (cs ++ [c]) pv = Some c.
Proof.
  revert pv. induction cs as [|d cs IH]; intros pv; [reflexivity|].
  change ((d :: cs) ++ [c]) with (d :: (cs ++ [c])).
  rewrite last_char_cons. apply IH.
Qed.

Lemma match_at_app r done l :
  match_at r (done ++ l) (List.length done)
  = match_here r (List.length done) (last_char done None) l.
Proof.
  unfold match_at.
  rewrite firstn_app, Nat.sub_diag, firstn_all, firstn_O, app_nil_r.
  rewrite skipn_app, Nat.sub_diag, skipn_all, skipn_O. reflexivity.
Qed.

(** The search passes over a prefix in which no attempt succeeds. *)
Lemma search_from_skip r pre : forall done suf,
  (forall i, List.length done <= i < List.length done + List.length pre ->
             match_at r (done ++ pre ++ suf) i = None) ->
  search_from r (List.length done) (last_char done None) (pre ++ suf)
  = search_from r (List.length done + List.length pre)
      (last_char (done ++ pre) None) suf.
Proof.
  induction pre as [|c pre IH]; intros done suf H.
  - simpl. rewrite Nat.add_0_r, app_nil_r. reflexivity.
  - change ((c :: pre) ++ suf) with (c :: (pre ++ suf)).
    cbn [search_from].
    rewrite <- (match_at_app r done (c :: pre ++ suf)).
    pose proof (H (List.length done) ltac:(simpl; lia)) as H0.
    change ((c :: pre) ++ suf) with (c :: (pre ++ suf)) in H0. rewrite H0.
    specialize (IH (done ++ [c]) suf).
    rewrite last_char_app, <- !app_assoc, length_app in IH. simpl in IH.
    rewrite Nat.add_1_r in IH. simpl List.length.
    rewrite Nat.add_succ_r. apply IH.
    intros i Hi. apply H. simpl. lia.
Qed.

Lemma search_skip r pre suf :
  (forall i, i < List.length pre -> match_at r (pre ++ suf) i = None) ->
  search r (pre ++ suf)
  = search_from r (List.length pre) (last_char pre None) suf.
Proof.
  intros H. unfold search.
  apply (search_from_skip r pre [] suf). intros i Hi. apply H. simpl in Hi. lia.
Qed.

(** What a pattern consumes is a prefix of what was left to read. *)
Lemma denote_consumes r : forall s s1,
  denote r s s1 ->
  exists cs, rest s = cs ++ rest s1 /\ pos s1 = List.length cs + pos s.
Proof.
  induction r as [|p|p lo hi|r1 IH1 r2 IH2|r1 IH1 r2 IH2|n r1 IH1|];
    intros s s1 H; simpl in H.
  - subst. exists []. split; reflexivity.
  - destruct H as (c & _ & Hr & Hs). exists [c]. split; [exact Hr|].
    rewrite Hs. reflexivity.
  - destruct H as (cs & _ & _ & _ & Hr & Hs). exists cs. split; [exact Hr|].
    rewrite Hs. reflexivity.
  - destruct H as (s2 & H1 & H2).
    destruct (IH1 _ _ H1) as (c1 & Hr1 & Hp1).
    destruct (IH2 _ _ H2) as (c2 & Hr2 & Hp2).
    exists (c1 ++ c2). split.
    + rewrite Hr1, Hr2, app_assoc. reflexivity.
    + rewrite length_app. lia.
  - destruct H as [H|H]; [apply IH1|apply IH2]; assumption.
  - destruct H as (s2 & H1 & Hs).
    destruct (IH1 _ _ H1) as (cs & Hr & Hp).
    exists cs. subst s1. split; assumption.
  - destruct H as [_ ->]. exists []. split; reflexivity.
Qed.

Lemma denote_groups r : group_free r = true ->
  forall s s1, denote r s s1 -> groups s1 = groups s.
Proof.
  induction r as [|p|p lo hi|r1 IH1 r2 IH2|r1 IH1 r2 IH2|n r1 IH1|];
    intros Hg s s1 H; simpl in H, Hg.
  - subst. reflexivity.
  - destruct H as (c & _ & _ & ->). reflexivity.
  - destruct H as (cs & _ & _ & _ & _ & ->). reflexivity.
  - apply andb_prop in Hg. destruct Hg as [Hg1 Hg2].
    destruct H as (s2 & H1 & H2).
    rewrite (IH2 Hg2 _ _ H2). apply (IH1 Hg1 _ _ H1).
  - apply andb_prop in Hg. destruct Hg as [Hg1 Hg2].
    destruct H as [H|H]; [apply (IH1 Hg1)|apply (IH2 Hg2)]; assumption.
  - discriminate.
  - destruct H as [_ ->]. reflexivity.
Qed.

(** A group captures exactly what its pattern consumed. *)
Lemma denote_group n r s s1 :
  denote (Group n r) s s1 ->
  exists s2 cs, denote r s s2 /\ rest s = cs ++ rest s2
                /\ s1 = set_group n cs s2.
Proof.
  intros (s2 & Hd & Hs).
  destruct (denote_consumes _ _ _ Hd) as (cs & Hr & Hp).
  exists s2, cs. repeat split; try assumption.
  rewrite Hs, Hr, Hp, Nat.add_sub, firstn_app, Nat.sub_diag, firstn_all.
  simpl. rewrite app_nil_r. reflexivity.
Qed.

(** *** Completeness: what can match does match *)

Lemma rep_complete p cs : forall lo hi (k : mstate -> option mstate) n pv gs l,
  holds p cs -> lo <= List.length cs -> within hi (List.length cs) ->
  k (MState (List.length cs + n) (last_char cs pv) l gs) <> None ->
  rep p lo hi k n pv gs (cs ++ l) <> None.
Proof.
  induction cs as [|c cs IH]; intros lo hi k n pv gs l Hcs Hlo Hhi Hk.
  - simpl in Hlo. assert (lo = 0) by lia. subst lo. simpl in Hk. simpl app.
    destruct l as [|c l]; simpl.
    + destruct (hi_is_zero hi); exact Hk.
    + destruct (hi_is_zero hi); [exact Hk|].
      destruct (p c); [|exact Hk].
      destruct (rep p 0 (dec_hi hi) k (S n) (Some c) gs l); [discriminate|exact Hk].
  - inversion Hcs as [|? ? Hc Hcs1]; subst.
    change ((c :: cs) ++ l) with (c :: (cs ++ l)). cbn [rep].
    assert (Hz : hi_is_zero hi = false).
    { destruct hi as [[|h]|]; try reflexivity. simpl in Hhi. lia. }
    rewrite Hz, Hc.
    assert (Hrec : rep p (Nat.pred lo) (dec_hi hi) k (S n) (Some c) gs (cs ++ l)
                   <> None).
    { apply IH; try assumption.
      - simpl in Hlo. lia.
      - destruct hi as [h|]; simpl in *; [lia|exact I].
      - rewrite last_char_cons in Hk. simpl List.length in Hk.
        replace (List.length cs + S n) with (S (List.length cs) + n) by lia.
        exact Hk. }
    destruct (rep p (Nat.pred lo) (dec_hi hi) k (S n) (Some c) gs (cs ++ l));
      [discriminate|contradiction].
Qed.

Theorem rmatch_complete r : forall (k : mstate -> option mstate) s s1,
  denote r s s1 -> k s1 <> None -> rmatch r k s <> None.
Proof.
  induction r as [|p|p lo hi|r1 IH1 r2 IH2|r1 IH1 r2 IH2|n r1 IH1|];
    intros k s s1 H Hk; simpl in H; cbn [rmatch].
  - subst. exact Hk.
  - destruct H as (c & Hp & Hr & Hs). rewrite Hr, Hp.
    intros E. apply Hk. rewrite Hs. exact E.
  - destruct H as (cs & Hcs & Hlo & Hhi & Hr & Hs). rewrite Hr.
    apply rep_complete; try assumption.
    intros E. apply Hk. rewrite Hs. exact E.
  - destruct H as (s2 & H1 & H2).
    apply (IH1 _ _ _ H1). apply (IH2 _ _ _ H2). exact Hk.
  - destruct H as [H|H].
    + pose proof (IH1 _ _ _ H Hk) as H1.
      destruct (rmatch r1 k s); [discriminate|contradiction].
    + destruct (rmatch r1 k s); [discriminate|]. apply (IH2 _ _ _ H Hk).
  - destruct H as (s2 & H1 & ->). apply (IH1 _ _ _ H1). exact Hk.
  - destruct H as [Hb ->]. rewrite Hb. exact Hk.
Qed.

Lemma match_at_start r text i :
  match_at r text i = rmatch r (fun s => Some s) (start_at text i).
Proof. reflexivity. Qed.

(** An attempt succeeds exactly when the pattern matches there. *)
Lemma match_at_iff r text i :
  match_at r text i <> None <-> matches_at r text i.
Proof.
  rewrite match_at_start. unfold matches_at. split.
  - intros H. destruct (rmatch r (fun s => Some s) (start_at text i)) as [m|] eqn:E;
      [|contradiction].
    destruct (rmatch_sound _ _ _ _ E) as (s1 & Hd & _). exists s1. exact Hd.
  - intros (s1 & Hd). apply (rmatch_complete _ _ _ _ Hd). discriminate.
Qed.

Lemma search_from_none r l : forall done,
  search_from r (List.length done) (last_char done None) l = None <->
  (forall i, List.length done <= i <= List.length done + List.length l ->
             match_at r (done ++ l) i = None).
Proof.
  induction l as [|c l IH]; intros done.
  - simpl. rewrite <- (match_at_app r done []). split.
    + intros H i Hi. simpl in Hi. replace i with (List.length done) by lia.
      destruct (match_at r (done ++ []) (List.length done)); [discriminate|reflexivity].
    + intros H. rewrite (H (List.length done)) by (simpl; lia). reflexivity.
  - cbn [search_from]. rewrite <- (match_at_app r done (c :: l)).
    specialize (IH (done ++ [c])).
    rewrite last_char_app, <- app_assoc, length_app in IH. simpl in IH.
    rewrite Nat.add_1_r in IH. split.
    + intros H i Hi.
      destruct (match_at r (done ++ c :: l) (List.length done)) eqn:E;
        [discriminate|].
      destruct (Nat.eq_dec i (List.length done)) as [-> | Hne]; [exact E|].
      apply (proj1 IH H). simpl in Hi. lia.
    + intros H. rewrite (H (List.length done)) by (simpl; lia).
      apply (proj2 IH). intros i Hi. apply H. simpl. lia.
Qed.

(** The search fails exactly when the pattern occurs nowhere in the text. *)
Theorem search_none_iff r text :
  search r text = None <-> ~ occurs_re r text.
Proof.
  unfold search, occurs_re.
  rewrite (search_from_none r text []). simpl. split.
  - intros H (i & Hi & Hm). apply match_at_iff in Hm. apply Hm, H. lia.
  - intros H i Hi. destruct (match_at r text i) eqn:E; [|reflexivity].
    exfalso. apply H. exists i. split; [lia|]. apply match_at_iff.
    rewrite E. discriminate.
Qed.

(** A successful search is the first successful attempt. *)
Theorem search_some r text m :
  search r text = Some m ->
  exists pre suf,
    text = pre ++ suf
    /\ denote r (start_at text (List.length pre)) m
    /\ skipn (List.length pre) text = suf
    /\ (forall i, i < List.length pre -> ~ matches_at r text i).
Proof.
  unfold search.
  assert (H : forall l done m,
    search_from r (List.length done) (last_char done None) l = Some m ->
    exists pre suf, l = pre ++ suf
      /\ match_at r (done ++ l) (List.length done + List.length pre) = Some m
      /\ (forall i, List.length done <= i < List.length done + List.length pre ->
                    match_at r (done ++ l) i = None)).
  { induction l as [|c l IH]; intros done m0 H.
    - simpl in H. rewrite <- (match_at_app r done []) in H.
      destruct (match_at r (done ++ []) (List.length done)) eqn:E; [|discriminate].
      inversion H; subst. exists [], []. simpl. rewrite Nat.add_0_r.
      split; [reflexivity|]. split; [exact E|]. intros i Hi. lia.
    - cbn [search_from] in H. rewrite <- (match_at_app r done (c :: l)) in H.
      destruct (match_at r (done ++ c :: l) (List.length done)) eqn:E.
      + inversion H; subst. exists [], (c :: l). simpl. rewrite Nat.add_0_r.
        split; [reflexivity|]. split; [exact E|]. intros i Hi. lia.
      + specialize (IH (done ++ [c]) m0).
        rewrite last_char_app, <- app_assoc, length_app in IH. simpl in IH.
        rewrite Nat.add_1_r in IH.
        destruct (IH H) as (pre & suf & -> & Hm & Hnone).
        exists (c :: pre), suf. split; [reflexivity|]. split.
        * simpl List.length. rewrite Nat.add_succ_r. exact Hm.
        * intros i Hi. simpl in Hi.
          destruct (Nat.eq_dec i (List.length done)) as [-> | Hne]; [exact E|].
          apply Hnone. lia. }
  intros Hs. destruct (H text [] m Hs) as (pre & suf & -> & Hm & Hnone).
  simpl in Hm, Hnone. exists pre, suf. split; [reflexivity|]. split; [|split].
  - rewrite match_at_start in Hm.
    destruct (rmatch_sound _ _ _ _ Hm) as (s1 & Hd & Hk). inversion Hk; subst.
    exact Hd.
  - rewrite skipn_app, Nat.sub_diag, skipn_all. reflexivity.
  - intros i Hi Hm1. apply match_at_iff in Hm1. apply Hm1, Hnone. lia.
Qed.

End SearchFacts.

(** ** Floating-point facts *)

Section FloatFacts.
Context {U : Unicode}.

Lemma iter_pos_inv (A : Type) (P : A -> Prop) (f : A -> A) :
  (forall x, P x -> P (f x)) -> forall p x, P x -> P (iter_pos f p x).
Proof.
  intros Hf. induction p as [p IH|p IH|]; intros x Hx; simpl.
  - apply IH, IH, Hf, Hx.
  - apply IH, IH, Hx.
  - apply Hf, Hx.
Qed.

Lemma shr_1_nonneg mrs : (0 <= shr_m mrs)%Z -> (0 <= shr_m (shr_1 mrs))%Z.
Proof.
  destruct mrs as [m r s]. simpl.
  destruct m as [|[p|p|]|[p|p|]]; simpl; intros H; lia.
Qed.

Lemma shr_fexp_nonneg m e l :
  (0 <= m)%Z ->
  (0 <= shr_m (fst (shr_fexp PyFloat.prec PyFloat.emax m e l)))%Z.
Proof.
  intros Hm. unfold shr_fexp, shr.
  assert (H0 : (0 <= shr_m (shr_record_of_loc m l))%Z)
    by (destruct l as [|[| |]]; exact Hm).
  destruct (fexp PyFloat.prec PyFloat.emax (Zdigits2 m + e) - e)%Z; simpl;
    try exact H0.
  apply iter_pos_inv; [apply shr_1_nonneg|exact H0].
Qed.

Lemma round_nearest_even_nonneg m l :
  (0 <= m)%Z -> (0 <= round_nearest_even m l)%Z.
Proof.
  intros Hm. destruct l as [|[| |]]; simpl; try lia.
  destruct (Z.even m); lia.
Qed.

(** Rounding a non-negative magnitude gives a non-negative number, never a
    NaN. *)
Lemma binary_round_aux_nonneg mx ex lx :
  (0 <= mx)%Z ->
  SFleb PyFloat.zero (binary_round_aux PyFloat.prec PyFloat.emax false mx ex lx)
  = true.
Proof.
  intros Hm. unfold binary_round_aux.
  pose proof (shr_fexp_nonneg _ ex lx Hm) as H1.
  destruct (shr_fexp PyFloat.prec PyFloat.emax mx ex lx) as [mrs1 e1].
  simpl in H1.
  pose proof (round_nearest_even_nonneg _ (loc_of_shr_record mrs1) H1) as H2.
  pose proof (shr_fexp_nonneg _ e1 loc_Exact H2) as H3.
  destruct (shr_fexp PyFloat.prec PyFloat.emax
              (round_nearest_even (shr_m mrs1) (loc_of_shr_record mrs1)) e1
              loc_Exact) as [mrs2 e2].
  simpl in H3. destruct (shr_m mrs2) as [|q|q]; try lia; try reflexivity.
  destruct (e2 <=? PyFloat.emax - PyFloat.prec)%Z; reflexivity.
Qed.

Lemma of_ratio_nonneg num den :
  SFleb PyFloat.zero (PyFloat.of_ratio num den) = true.
Proof.
  unfold PyFloat.of_ratio. destruct num as [|p]; [reflexivity|].
  unfold SFdiv_core_binary.
  set (s := (0 - 0 - _)%Z).
  set (m1 := match s with Z0 => Zpos p | Zpos _ => Z.shiftl (Zpos p) s
                        | Zneg _ => 0%Z end).
  assert (Hm1 : (0 <= m1)%Z).
  { unfold m1. destruct s; try lia. apply Z.shiftl_nonneg. lia. }
  pose proof (Z.div_pos m1 (Zpos den) Hm1 ltac:(lia)) as Hq.
  unfold Z.div in Hq. destruct (Z.div_eucl m1 (Zpos den)) as [q r].
  simpl in Hq. apply binary_round_aux_nonneg. exact Hq.
Qed.

Lemma todecimal_ascii_nondigit x :
  is_ascii x = true -> ascii_digit x = false -> todecimal x = None.
Proof. intros Ha Hd. unfold todecimal. rewrite Ha, Hd. reflexivity. Qed.

Lemma replace_other old new cs :
  Forall (fun c => c <> old) cs -> replace old new cs = cs.
Proof.
  unfold replace. induction 1 as [|c cs Hc _ IH]; [reflexivity|].
  simpl. rewrite IH. destruct (N.eqb_spec c old); [contradiction|reflexivity].
Qed.

Lemma replace_app old new a b :
  replace old new (a ++ b) = replace old new a ++ replace old new b.
Proof. apply flat_map_app. Qed.

Lemma replace_cons old new c cs :
  replace old new (c :: cs)
  = (if (c =? old)%N then new else [c]) ++ replace old new cs.
Proof. reflexivity. Qed.

Lemma holds_neq p cs x :
  holds p cs -> p x = false -> Forall (fun c => c <> x) cs.
Proof.
  intros H Hx. eapply Forall_impl; [|exact H].
  simpl. intros c Hc ->. rewrite Hx in Hc. discriminate.
Qed.

Lemma span_digits_app ip r :
  holds isdecimal ip ->
  match r with [] => True | c :: _ => todecimal c = None end ->
  PyFloat.span_digits (ip ++ r) = (flat_map digit_of ip, r).
Proof.
  intros Hip Hr. induction Hip as [|c ip Hc _ IH]; simpl.
  - destruct r as [|c r]; [reflexivity|]. simpl. rewrite Hr. reflexivity.
  - unfold isdecimal in Hc. unfold digit_of at 1.
    destruct (todecimal c); [|discriminate]. rewrite IH. reflexivity.
Qed.

Lemma flat_map_digit_length cs :
  holds isdecimal cs -> List.length (flat_map digit_of cs) = List.length cs.
Proof.
  induction 1 as [|c cs Hc _ IH]; [reflexivity|]. simpl.
  unfold isdecimal in Hc. unfold digit_of at 1.
  destruct (todecimal c); [|discriminate]. simpl. rewrite IH. reflexivity.
Qed.

(** [float] accepts every amount text once its comma is a dot, and gives the
    value of the text. *)
Lemma of_str_amount g :
  is_amount_text g ->
  PyFloat.of_str (replace (ch ",") (py ".") g) = Some (amount_value g).
Proof.
  intros (ip & sep & fp & -> & Hip & Hlen & Hsep & Hfp & Hlfp).
  assert (Hcomma : isdecimal (ch ",") = false) by reflexivity.
  assert (Hnorm : replace (ch ",") (py ".") (ip ++ sep :: fp)
                  = ip ++ ch "." :: fp).
  { rewrite replace_app, replace_cons.
    rewrite !replace_other by (eapply holds_neq; eassumption).
    destruct Hsep as [-> | ->]; reflexivity. }
  rewrite Hnorm. unfold PyFloat.of_str.
  rewrite span_digits_app by (try assumption; reflexivity).
  change (ch "." =? 46)%N with true. cbv iota.
  pose proof (span_digits_app fp [] Hfp I) as Hs. rewrite app_nil_r in Hs.
  rewrite Hs.
  assert (Hne : flat_map digit_of ip ++ flat_map digit_of fp <> []).
  { intros E. apply (f_equal (@List.length N)) in E.
    rewrite length_app, !flat_map_digit_length in E by assumption.
    simpl in E. lia. }
  destruct (flat_map digit_of ip ++ flat_map digit_of fp) as [|d ds] eqn:E;
    [contradiction|].
  rewrite flat_map_digit_length, Hlfp by assumption.
  unfold amount_value. rewrite flat_map_app. simpl flat_map.
  replace (digit_of sep) with (@nil N) by (destruct Hsep as [-> | ->]; reflexivity).
  simpl. rewrite E. reflexivity.
Qed.

End FloatFacts.

(** ** The shape of what the patterns match *)

Section Shapes.
Context {U : Unicode}.

Lemma can_chr p c : p c = true -> can (Chr p) [c].
Proof.
  intros Hp s l Hr. exists (after [c] l s). split; [|reflexivity].
  exists c. repeat split; assumption.
Qed.

Lemma can_rep p lo hi cs :
  holds p cs -> lo <= List.length cs -> within hi (List.length cs) ->
  can (Rep p lo hi) cs.
Proof.
  intros Hcs Hlo Hhi s l Hr. exists (after cs l s). split; [|reflexivity].
  exists cs. repeat split; assumption.
Qed.

Lemma can_seq r1 r2 a b : can r1 a -> can r2 b -> can (Seq r1 r2) (a ++ b).
Proof.
  intros H1 H2 s l Hr. rewrite <- app_assoc in Hr.
  destruct (H1 s (b ++ l) Hr) as (s2 & Hd1 & Hr2).
  destruct (H2 s2 l Hr2) as (s1 & Hd2 & Hr1).
  exists s1. split; [exists s2; split; assumption|exact Hr1].
Qed.

Lemma can_alt_l r1 r2 cs : can r1 cs -> can (Alt r1 r2) cs.
Proof.
  intros H s l Hr. destruct (H s l Hr) as (s1 & Hd & Hr1).
  exists s1. split; [left; exact Hd|exact Hr1].
Qed.

Lemma can_alt_r r1 r2 cs : can r2 cs -> can (Alt r1 r2) cs.
Proof.
  intros H s l Hr. destruct (H s l Hr) as (s1 & Hd & Hr1).
  exists s1. split; [right; exact Hd|exact Hr1].
Qed.

Lemma can_group n r cs : can r cs -> can (Group n r) cs.
Proof.
  intros H s l Hr. destruct (H s l Hr) as (s2 & Hd & Hr2).
  eexists. split; [exists s2; split; [exact Hd|reflexivity]|exact Hr2].
Qed.

Lemma can_chars (f : char -> char -> bool) p : forall cs,
  Forall2 (fun x c => f x c = true) p cs ->
  can (seq_of (map (fun x => Chr (f x)) p)) cs.
Proof.
  induction p as [|x p IH]; intros cs H; inversion H as [|? c ? cs1 Hx Hp]; subst.
  - intros s l Hr. exists s. split; [reflexivity|exact Hr].
  - destruct p as [|y p].
    + inversion Hp; subst. apply can_chr. exact Hx.
    + change (c :: cs1) with ([c] ++ cs1).
      change (seq_of (map (fun x0 => Chr (f x0)) (x :: y :: p)))
        with (Seq (Chr (f x)) (seq_of (map (fun x0 => Chr (f x0)) (y :: p)))).
      apply can_seq; [apply can_chr; exact Hx|apply IH; exact Hp].
Qed.

Lemma can_lit_i p cs : ci_equal p cs -> can (lit_i p) cs.
Proof. apply (can_chars c_lit_i). Qed.

Lemma can_lit p : can (lit p) p.
Proof.
  apply (can_chars c_lit). induction p; constructor;
    [apply N.eqb_refl|assumption].
Qed.

(** What a sequence of one-character tests consumes. *)
Lemma denote_chars (f : char -> char -> bool) p : forall s s1,
  denote (seq_of (map (fun x => Chr (f x)) p)) s s1 ->
  exists cs, Forall2 (fun x c => f x c = true) p cs /\ rest s = cs ++ rest s1.
Proof.
  induction p as [|x p IH]; intros s s1 H.
  - simpl in H. subst. exists []. split; [constructor|reflexivity].
  - destruct p as [|y p].
    + destruct H as (c & Hc & Hr & _). exists [c]. split; [|exact Hr].
      constructor; [exact Hc|constructor].
    + change (seq_of (map (fun x0 => Chr (f x0)) (x :: y :: p)))
        with (Seq (Chr (f x)) (seq_of (map (fun x0 => Chr (f x0)) (y :: p))))
        in H.
      destruct H as (s2 & (c & Hc & Hr & _) & H2).
      destruct (IH _ _ H2) as (cs & Hcs & Hr2).
      exists (c :: cs). split; [constructor; assumption|].
      rewrite Hr, Hr2. reflexivity.
Qed.

Lemma denote_lit_i p s s1 :
  denote (lit_i p) s s1 -> exists cs, ci_equal p cs /\ rest s = cs ++ rest s1.
Proof. apply (denote_chars c_lit_i). Qed.

Lemma denote_lit p s s1 : denote (lit p) s s1 -> rest s = p ++ rest s1.
Proof.
  intros H. destruct (denote_chars c_lit p _ _ H) as (cs & Hcs & Hr).
  rewrite Hr. f_equal. clear Hr H. induction Hcs as [|x c p cs Hx _ IH];
    [reflexivity|].
  apply N.eqb_eq in Hx. subst. reflexivity.
Qed.

Lemma denote_rep_any p lo hi s s1 :
  denote (Rep p lo hi) s s1 ->
  exists cs, holds p cs /\ lo <= List.length cs /\ within hi (List.length cs)
             /\ rest s = cs ++ rest s1.
Proof.
  intros (cs & Hcs & Hlo & Hhi & Hr & _). exists cs. repeat split; assumption.
Qed.

Lemma denote_gap s s1 :
  denote (opt isspace) s s1 -> exists g, is_gap g /\ rest s = g ++ rest s1.
Proof.
  intros H. apply denote_rep_any in H. destruct H as (cs & Hcs & _ & Hhi & Hr).
  exists cs. split; [|exact Hr]. simpl in Hhi.
  destruct cs as [|w [|x cs]]; [left; reflexivity| |simpl in Hhi; lia].
  right. exists w. inversion Hcs; subst. split; [reflexivity|assumption].
Qed.

Lemma can_gap g : is_gap g -> can (opt isspace) g.
Proof.
  intros Hg. apply can_rep.
  - destruct Hg as [-> | (w & -> & Hw)]; repeat constructor. exact Hw.
  - lia.
  - destruct Hg as [-> | (w & -> & Hw)]; simpl; lia.
Qed.

Lemma denote_marker s s1 :
  denote marker_re s s1 -> exists mk, is_marker mk /\ rest s = mk ++ rest s1.
Proof.
  unfold marker_re. cbn [denote]. intros [H | [H | [H | H]]].
  - apply denote_lit_i in H. destruct H as (cs & Hcs & Hr).
    exists cs. split; [left; exact Hcs|exact Hr].
  - apply denote_lit in H. exists (py "€"). split; [right; left; reflexivity|exact H].
  - apply denote_lit_i in H. destruct H as (cs & Hcs & Hr).
    exists cs. split; [right; right; left; exact Hcs|exact Hr].
  - apply denote_lit_i in H. destruct H as (cs & Hcs & Hr).
    exists cs. split; [right; right; right; exact Hcs|exact Hr].
Qed.

Lemma can_marker mk : is_marker mk -> can marker_re mk.
Proof.
  unfold marker_re. intros [H | [-> | [H | H]]].
  - apply can_alt_l, can_lit_i, H.
  - apply can_alt_r, can_alt_l, can_lit.
  - apply can_alt_r, can_alt_r, can_alt_l, can_lit_i, H.
  - apply can_alt_r, can_alt_r, can_alt_r, can_lit_i, H.
Qed.

Lemma can_number g : is_amount_text g -> can number_re g.
Proof.
  intros (ip & sep & fp & -> & Hip & Hlen & Hsep & Hfp & Hlfp).
  unfold number_re. cbn [seq_of].
  apply can_seq; [apply can_rep; try assumption; simpl; lia|].
  change (sep :: fp) with ([sep] ++ fp). apply can_seq.
  - apply can_chr. destruct Hsep as [-> | ->]; reflexivity.
  - apply can_rep; try assumption; simpl; lia.
Qed.

Lemma denote_label s s1 :
  denote label_re s s1 -> exists lab, is_label lab /\ rest s = lab ++ rest s1.
Proof.
  unfold label_re. cbn [denote seq_of].
  intros [H | (s2 & H1 & s3 & (y & Hy & Hr2 & _) & H3)].
  - apply denote_lit_i in H. destruct H as (cs & Hcs & Hr).
    exists cs. split; [left; exact Hcs|exact Hr].
  - apply denote_lit_i in H1. destruct H1 as (a & Ha & Hr1).
    apply denote_lit_i in H3. destruct H3 as (b & Hb & Hr3).
    exists (a ++ y :: b). split.
    + right. exists a, y, b. repeat split; assumption.
    + rewrite Hr1, Hr2, Hr3, <- app_assoc. reflexivity.
Qed.

Lemma can_label lab : is_label lab -> can label_re lab.
Proof.
  unfold label_re. intros [H | (a & y & b & -> & Ha & Hy & Hb)].
  - apply can_alt_l, can_lit_i, H.
  - apply can_alt_r. cbn [seq_of]. apply can_seq; [apply can_lit_i, Ha|].
    change (y :: b) with ([y] ++ b).
    apply can_seq; [apply can_chr, Hy|apply can_lit_i, Hb].
Qed.

(** Whatever a pattern can match at the end of a prefix makes the search
    succeed. *)
Lemma can_search r pre cs post :
  can r cs -> search r (pre ++ cs ++ post) <> None.
Proof.
  intros Hc Hs. apply search_none_iff in Hs. apply Hs.
  exists (List.length pre). split; [rewrite length_app; lia|].
  destruct (Hc (start_at (pre ++ cs ++ post) (List.length pre)) post)
    as (s1 & Hd & _).
  - unfold start_at. cbn [rest].
    rewrite skipn_app, Nat.sub_diag, skipn_all. reflexivity.
  - exists s1. exact Hd.
Qed.

End Shapes.

(** ** What the searches of [parse_text] capture *)

Section Captures.
Context {U : Unicode}.

Lemma denote_rep p lo hi s s1 :
  denote (Rep p lo (Some hi)) s s1 ->
  exists cs, holds p cs /\ lo <= List.length cs <= hi
             /\ rest s = cs ++ rest s1 /\ groups s1 = groups s.
Proof.
  intros (cs & Hcs & Hlo & Hhi & Hr & ->). exists cs. simpl in Hhi.
  repeat split; assumption.
Qed.

Lemma denote_number s s1 :
  denote number_re s s1 ->
  exists g, is_amount_text g /\ rest s = g ++ rest s1.
Proof.
  unfold number_re. cbn [seq_of denote].
  intros (s2 & H1 & s3 & (sep & Hsep & Hr2 & _) & H3).
  apply denote_rep in H1. destruct H1 as (ip & Hip & Hlen & Hr1 & _).
  apply denote_rep in H3. destruct H3 as (fp & Hfp & Hlfp & Hr3 & _).
  exists (ip ++ sep :: fp). split.
  - exists ip, sep, fp. repeat split; try assumption; try lia.
    unfold c_set in Hsep. cbn in Hsep.
    destruct (N.eqb_spec sep 44); [left; assumption|].
    destruct (N.eqb_spec sep 46); [right; assumption|discriminate].
  - rewrite Hr1, Hr2, Hr3, <- app_assoc. reflexivity.
Qed.

(** A group around a pattern without groups: its capture is what the
    pattern consumed, put in front of the groups so far. *)
Lemma denote_capture n r s s1 :
  group_free r = true -> denote (Group n r) s s1 ->
  exists cs s2, denote r s s2 /\ rest s = cs ++ rest s2
                /\ rest s1 = rest s2 /\ groups s1 = (n, cs) :: groups s.
Proof.
  intros Hg H. destruct (denote_group _ _ _ _ H) as (s2 & cs & Hd & Hr & ->).
  exists cs, s2. split; [exact Hd|]. split; [exact Hr|].
  split; [reflexivity|].
  cbn [set_group groups]. rewrite (denote_groups r Hg _ _ Hd). reflexivity.
Qed.

Lemma denote_group_number n s s1 :
  denote (Group n number_re) s s1 ->
  exists g, is_amount_text g /\ rest s = g ++ rest s1
            /\ groups s1 = (n, g) :: groups s.
Proof.
  intros H.
  destruct (denote_capture n number_re _ _ eq_refl H)
    as (cs & s2 & Hd & Hr & Hr1 & Hg).
  destruct (denote_number _ _ Hd) as (g & Hshape & Hr2).
  assert (cs = g) by (rewrite Hr2 in Hr; apply app_inv_tail in Hr; congruence).
  subst cs. exists g. rewrite Hr1. repeat split; assumption.
Qed.

Lemma denote_group_marker n s s1 :
  denote (Group n marker_re) s s1 ->
  exists mk, is_marker mk /\ rest s = mk ++ rest s1
             /\ groups s1 = (n, mk) :: groups s.
Proof.
  intros H.
  destruct (denote_capture n marker_re _ _ eq_refl H)
    as (cs & s2 & Hd & Hr & Hr1 & Hg).
  destruct (denote_marker _ _ Hd) as (mk & Hshape & Hr2).
  assert (cs = mk) by (rewrite Hr2 in Hr; apply app_inv_tail in Hr; congruence).
  subst cs. exists mk. rewrite Hr1. repeat split; assumption.
Qed.

Lemma denote_group_label n s s1 :
  denote (Group n label_re) s s1 ->
  exists lab, is_label lab /\ rest s = lab ++ rest s1
              /\ groups s1 = (n, lab) :: groups s.
Proof.
  intros H.
  destruct (denote_capture n label_re _ _ eq_refl H)
    as (cs & s2 & Hd & Hr & Hr1 & Hg).
  destruct (denote_label _ _ Hd) as (lab & Hshape & Hr2).
  assert (cs = lab) by (rewrite Hr2 in Hr; apply app_inv_tail in Hr; congruence).
  subst cs. exists lab. rewrite Hr1. repeat split; assumption.
Qed.

Lemma denote_group_digits n lo hi s s1 :
  denote (Group n (between isdecimal lo hi)) s s1 ->
  exists g, is_digits lo hi g /\ rest s = g ++ rest s1
            /\ groups s1 = (n, g) :: groups s.
Proof.
  intros H.
  destruct (denote_capture n (between isdecimal lo hi) _ _ eq_refl H)
    as (cs & s2 & Hd & Hr & Hr1 & Hg).
  apply denote_rep in Hd. destruct Hd as (g & Hds & Hlen & Hr2 & _).
  assert (cs = g) by (rewrite Hr2 in Hr; apply app_inv_tail in Hr; congruence).
  subst cs. exists g. rewrite Hr1. repeat split; try assumption; lia.
Qed.

Lemma denote_opt_gap s s1 :
  denote (opt isspace) s s1 ->
  exists g, is_gap g /\ rest s = g ++ rest s1 /\ groups s1 = groups s.
Proof.
  intros H. destruct (denote_gap _ _ H) as (g & Hg & Hr).
  exists g. repeat split; try assumption.
  apply (denote_groups (opt isspace) eq_refl _ _ H).
Qed.

Lemma start_at_rest pre suf :
  rest (start_at (pre ++ suf) (List.length pre)) = suf.
Proof.
  unfold start_at. cbn [rest]. rewrite skipn_app, Nat.sub_diag, skipn_all.
  reflexivity.
Qed.

(** Amount before marker: the first place where a number, an optional
    white-space character and a marker stand; group 1 is the number. *)
Lemma search_amount text m :
  search amount_re text = Some m ->
  exists pre g ws mk post,
    text = pre ++ g ++ ws ++ mk ++ post
    /\ is_amount_text g /\ is_gap ws /\ is_marker mk
    /\ first_at amount_re text pre
    /\ group m 1 = Some g.
Proof.
  intros H. destruct (search_some _ _ _ H) as (pre & suf & -> & Hd & _ & Hfirst).
  pose proof (start_at_rest pre suf) as Hr0.
  unfold amount_re in Hd. cbn [seq_of] in Hd.
  destruct Hd as (s2 & H1 & s3 & H2 & H3).
  destruct (denote_group_number _ _ _ H1) as (g & Hg & Hr1 & Hg1).
  destruct (denote_opt_gap _ _ H2) as (ws & Hws & Hr2 & Hg2).
  destruct (denote_group_marker _ _ _ H3) as (mk & Hmk & Hr3 & Hg3).
  exists pre, g, ws, mk, (rest m).
  rewrite <- Hr3, <- Hr2, <- Hr1, Hr0.
  repeat split; try assumption.
  unfold group. rewrite Hg3, Hg2, Hg1. reflexivity.
Qed.

(** Marker before amount: group 2 is the number. *)
Lemma search_amount_rev text m :
  search amount_re_rev text = Some m ->
  exists pre mk ws g post,
    text = pre ++ mk ++ ws ++ g ++ post
    /\ is_marker mk /\ is_gap ws /\ is_amount_text g
    /\ first_at amount_re_rev text pre
    /\ group m 2 = Some g.
Proof.
  intros H. destruct (search_some _ _ _ H) as (pre & suf & -> & Hd & _ & Hfirst).
  pose proof (start_at_rest pre suf) as Hr0.
  unfold amount_re_rev in Hd. cbn [seq_of] in Hd.
  destruct Hd as (s2 & H1 & s3 & H2 & H3).
  destruct (denote_group_marker _ _ _ H1) as (mk & Hmk & Hr1 & Hg1).
  destruct (denote_opt_gap _ _ H2) as (ws & Hws & Hr2 & Hg2).
  destruct (denote_group_number _ _ _ H3) as (g & Hg & Hr3 & Hg3).
  exists pre, mk, ws, g, (rest m).
  rewrite <- Hr3, <- Hr2, <- Hr1, Hr0.
  repeat split; try assumption.
  unfold group. rewrite Hg3. reflexivity.
Qed.

(** The labelled reference: the first place where a label, an optional
    colon, white space and one to ten digits stand; group 2 is the digits. *)
Lemma search_vs text m :
  search vs_re text = Some m ->
  exists pre lab col ws g post,
    text = pre ++ lab ++ col ++ ws ++ g ++ post
    /\ is_label lab /\ (col = [] \/ col = py ":") /\ holds isspace ws
    /\ is_digits 1 10 g
    /\ first_at vs_re text pre
    /\ group m 2 = Some g.
Proof.
  intros H. destruct (search_some _ _ _ H) as (pre & suf & -> & Hd & _ & Hfirst).
  pose proof (start_at_rest pre suf) as Hr0.
  unfold vs_re in Hd. cbn [seq_of] in Hd.
  destruct Hd as (s2 & H1 & s3 & H2 & s4 & H3 & H4).
  destruct (denote_group_label _ _ _ H1) as (lab & Hlab & Hr1 & _).
  apply denote_rep_any in H2. destruct H2 as (col & Hcol & _ & Hcolhi & Hr2).
  apply denote_rep_any in H3. destruct H3 as (ws & Hws & _ & _ & Hr3).
  destruct (denote_group_digits _ _ _ _ _ H4) as (g & Hg & Hr4 & Hg4).
  exists pre, lab, col, ws, g, (rest m).
  rewrite <- Hr4, <- Hr3, <- Hr2, <- Hr1, Hr0.
  split; [reflexivity|]. split; [exact Hlab|]. split; [|split; [exact Hws|]].
  - simpl in Hcolhi. destruct col as [|c [|c2 col]];
      [left; reflexivity| |simpl in Hcolhi; lia].
    right. inversion Hcol as [|? ? Hc _]; subst. unfold c_lit in Hc.
    apply N.eqb_eq in Hc. subst. reflexivity.
  - split; [exact Hg|]. split; [exact Hfirst|].
    unfold group. rewrite Hg4. reflexivity.
Qed.

Lemma isdecimal_word c : isdecimal c = true -> isword c = true.
Proof.
  unfold isdecimal, isword, todecimal. destruct (is_ascii c).
  - destruct (ascii_digit c); [reflexivity|discriminate].
  - destruct (u_todecimal c) eqn:E; [|discriminate]. intros _.
    eapply u_decimal_alnum. exact E.
Qed.

(** The standalone reference: the first run of exactly ten digits with no
    word character on either side; group 1 is the run. *)
Lemma search_vs_standalone text m :
  search vs_standalone_re text = Some m ->
  exists pre g post,
    text = pre ++ g ++ post
    /\ is_digits 10 10 g /\ no_word_before pre /\ no_word_after post
    /\ first_at vs_standalone_re text pre
    /\ group m 1 = Some g.
Proof.
  intros H. destruct (search_some _ _ _ H) as (pre & suf & -> & Hd & _ & Hfirst).
  pose proof (start_at_rest pre suf) as Hr0.
  unfold vs_standalone_re in Hd. cbn [seq_of] in Hd.
  destruct Hd as (s2 & (Hb1 & ->) & s3 & H3 & (Hb2 & ->)).
  destruct (denote_group_digits _ _ _ _ _ H3) as (g & Hg & Hr3 & Hg3).
  destruct (denote_group _ _ _ _ H3) as (s4 & cs & Hd4 & Hr4 & Hs3).
  destruct Hd4 as (ds & Hds & _ & _ & Hr5 & Hs4).
  exists pre, g, (rest s3). rewrite <- Hr3, Hr0.
  assert (Hne : exists d g1, g = d :: g1 /\ isdecimal d = true).
  { destruct Hg as [Hh [Hl _]]. destruct g as [|d g1]; [simpl in Hl; lia|].
    inversion Hh; subst. exists d, g1. split; [reflexivity|assumption]. }
  destruct Hne as (d & g1 & Hgeq & Hdd).
  split; [reflexivity|]. split; [exact Hg|]. split; [|split].
  - unfold at_boundary in Hb1. unfold start_at in Hb1 at 1. cbn [prev] in Hb1.
    rewrite firstn_app, Nat.sub_diag, firstn_all, firstn_O, app_nil_r in Hb1.
    rewrite Hr3, Hgeq in Hb1. cbn [app hd_error isword_opt] in Hb1.
    rewrite (isdecimal_word _ Hdd) in Hb1. unfold no_word_before.
    destruct (isword_opt (last_char pre None)); [discriminate|reflexivity].
  - assert (Hprev : isword_opt (prev s3) = true).
    { rewrite Hs3. cbn [set_group prev]. rewrite Hs4. cbn [after prev].
      assert (ds = g).
      { rewrite Hr5 in Hr3. rewrite Hs3 in Hr3. cbn [set_group rest] in Hr3.
        apply app_inv_tail in Hr3. exact Hr3. }
      subst ds. destruct Hg as [Hh _].
      destruct (exists_last (l:=g)) as (g0 & x & Hx);
        [rewrite Hgeq; discriminate|].
      rewrite Hx. rewrite last_char_app. cbn [isword_opt].
      apply isdecimal_word.
      rewrite Hx in Hh. apply Forall_app in Hh. destruct Hh as [_ Hh].
      inversion Hh; subst. assumption. }
    unfold at_boundary in Hb2. rewrite Hprev in Hb2. unfold no_word_after.
    destruct (isword_opt (hd_error (rest s3))); [discriminate|reflexivity].
  - split; [exact Hfirst|]. unfold group. rewrite Hg3. reflexivity.
Qed.

Lemma denote_block n s s1 :
  denote (times d09 n) s s1 -> exists b, is_block n b /\ rest s = b ++ rest s1.
Proof.
  intros H. apply denote_rep in H. destruct H as (b & Hb & Hlen & Hr & _).
  exists b. split; [split; [exact Hb|lia]|exact Hr].
Qed.

Lemma denote_iban_alt prefix s s1 :
  denote (seq_of (lit prefix :: iban_tail)) s s1 ->
  exists b1 g1 b2 g2 b3 g3 b4 g4 b5 g5 b6,
    rest s = iban_layout prefix b1 g1 b2 g2 b3 g3 b4 g4 b5 g5 b6 ++ rest s1
    /\ is_block 2 b1 /\ is_gap g1 /\ is_block 4 b2 /\ is_gap g2
    /\ is_block 4 b3 /\ is_gap g3 /\ is_block 4 b4 /\ is_gap g4
    /\ is_block 4 b5 /\ is_gap g5 /\ is_block 4 b6.
Proof.
  unfold iban_tail. cbn [seq_of denote].
  intros (t0 & H0 & t1 & H1 & t2 & H2 & t3 & H3 & t4 & H4 & t5 & H5 & t6 & H6
          & t7 & H7 & t8 & H8 & t9 & H9 & t10 & H10 & H11).
  apply denote_lit in H0.
  apply denote_block in H1, H3, H5, H7, H9, H11.
  apply denote_gap in H2, H4, H6, H8, H10.
  destruct H1 as (b1 & B1 & R1). destruct H2 as (g1 & G1 & R2).
  destruct H3 as (b2 & B2 & R3). destruct H4 as (g2 & G2 & R4).
  destruct H5 as (b3 & B3 & R5). destruct H6 as (g3 & G3 & R6).
  destruct H7 as (b4 & B4 & R7). destruct H8 as (g4 & G4 & R8).
  destruct H9 as (b5 & B5 & R9). destruct H10 as (g5 & G5 & R10).
  destruct H11 as (b6 & B6 & R11).
  exists b1, g1, b2, g2, b3, g3, b4, g4, b5, g5, b6.
  split; [|repeat (split; [assumption|]); assumption].
  unfold iban_layout.
  rewrite H0, R1, R2, R3, R4, R5, R6, R7, R8, R9, R10, R11.
  rewrite <- !app_assoc. reflexivity.
Qed.

(** The account identifier: the first identifier layout of the text; group
    1 is the layout. *)
Lemma search_iban text m :
  search iban_re text = Some m ->
  exists pre t post,
    text = pre ++ t ++ post /\ is_iban_layout t
    /\ first_at iban_re text pre
    /\ group m 1 = Some t.
Proof.
  intros H. destruct (search_some _ _ _ H) as (pre & suf & -> & Hd & _ & Hfirst).
  pose proof (start_at_rest pre suf) as Hr0.
  unfold iban_re in Hd.
  destruct (denote_group _ _ _ _ Hd) as (s2 & cs & Hd2 & Hr & ->).
  rewrite Hr0 in Hr. cbn [denote] in Hd2.
  assert (Hl : exists prefix, (prefix = py "SK" \/ prefix = py "CZ")
                 /\ denote (seq_of (lit prefix :: iban_tail))
                      (start_at (pre ++ suf) (List.length pre)) s2).
  { destruct Hd2 as [Hd2 | Hd2]; eexists; (split; [|exact Hd2]);
      [left|right]; reflexivity. }
  destruct Hl as (prefix & Hp & Hd3).
  destruct (denote_iban_alt _ _ _ Hd3)
    as (b1 & g1 & b2 & g2 & b3 & g3 & b4 & g4 & b5 & g5 & b6 & Hr3 & Hshape).
  rewrite Hr0 in Hr3.
  assert (cs = iban_layout prefix b1 g1 b2 g2 b3 g3 b4 g4 b5 g5 b6)
    by (rewrite Hr3 in Hr; apply app_inv_tail in Hr; congruence).
  subst cs. exists pre, (iban_layout prefix b1 g1 b2 g2 b3 g3 b4 g4 b5 g5 b6),
    (rest s2).
  split; [rewrite <- Hr3; reflexivity|]. split; [|split; [exact Hfirst|reflexivity]].
  exists prefix, b1, g1, b2, g2, b3, g3, b4, g4, b5, g5, b6.
  split; [reflexivity|]. split; [exact Hp|exact Hshape].
Qed.

End Captures.

(** ** The extractor never fails and follows the rules *)

Section ExtractorFacts.
Context {U : Unicode}.

Lemma is_digits_truthy lo hi g : is_digits (S lo) hi g -> truthy g = true.
Proof.
  intros [_ [Hlen _]]. destruct g; [simpl in Hlen; lia|reflexivity].
Qed.

Lemma is_amount_text_truthy g : is_amount_text g -> truthy g = true.
Proof.
  intros (ip & sep & fp & -> & _). destruct ip; reflexivity.
Qed.

Lemma startswith_nil_r p : startswith p [] = true -> p = [].
Proof. destruct p; [reflexivity|discriminate]. Qed.

(** Closes a conjunction of hypotheses and trivial equations. *)
Ltac conj := repeat (split; [first [assumption | reflexivity]|]);
             first [assumption | reflexivity].

Lemma parse_text_rules text :
  exists f, parse_text text = Some f
            /\ iban_rule text (f_iban f)
            /\ amount_rule text (f_amount f)
            /\ currency_rule text (f_iban f) (f_currency f)
            /\ vs_rule text (f_vs f).
Proof.
  unfold parse_text.
  (* account identifier *)
  assert (Hi : exists iban,
    match search iban_re text with
    | Some m => g <- group m 1 ;; Some (replace (ch " ") [] g)
    | None => Some []
    end = Some iban
    /\ iban_rule text iban).
  { unfold iban_rule. destruct (search iban_re text) as [m|] eqn:E.
    - destruct (search_iban _ _ E) as (pre & t & post & Ht & Hl & Hf & Hg).
      rewrite Hg. simpl. eexists. split; [reflexivity|].
      exists pre, t, post. conj.
    - exists []. split; reflexivity. }
  destruct Hi as (iban & -> & Hiban). cbn [bind].
  (* amount *)
  assert (Ha : exists s a,
    match search amount_re text with
    | None => match search amount_re_rev text with
              | Some m => group m 2
              | None => Some []
              end
    | Some m => group m 1
    end = Some s
    /\ (if truthy s then PyFloat.of_str (replace (ch ",") (py ".") s)
        else Some PyFloat.zero) = Some a
    /\ amount_rule text a).
  { unfold amount_rule. destruct (search amount_re text) as [m|] eqn:E1.
    - destruct (search_amount _ _ E1)
        as (pre & g & ws & mk & post & Ht & Hg & Hws & Hmk & Hf & Hgr).
      exists g, (amount_value g). rewrite (is_amount_text_truthy _ Hg).
      split; [exact Hgr|]. split; [apply of_str_amount; exact Hg|].
      exists pre, g, ws, mk, post. conj.
    - destruct (search amount_re_rev text) as [m|] eqn:E2.
      + destruct (search_amount_rev _ _ E2)
          as (pre & mk & ws & g & post & Ht & Hmk & Hws & Hg & Hf & Hgr).
        exists g, (amount_value g). rewrite (is_amount_text_truthy _ Hg).
        split; [exact Hgr|]. split; [apply of_str_amount; exact Hg|].
        exists pre, mk, ws, g, post. conj.
      + exists [], PyFloat.zero. repeat split. }
  destruct Ha as (s & a & -> & Hs & Hamount). cbn [bind]. rewrite Hs. cbn [bind].
  (* reference code *)
  assert (Hv : exists v w,
    match search vs_re text with
    | Some m => group m 2
    | None => Some []
    end = Some v
    /\ (if negb (truthy v)
        then match search vs_standalone_re text with
             | Some m => group m 1
             | None => Some []
             end
        else Some v) = Some w
    /\ vs_rule text w).
  { unfold vs_rule. destruct (search vs_re text) as [m|] eqn:E1.
    - destruct (search_vs _ _ E1)
        as (pre & lab & col & ws & g & post & Ht & Hlab & Hcol & Hws & Hd & Hf & Hgr).
      exists g, g. rewrite (is_digits_truthy _ _ _ Hd).
      split; [exact Hgr|]. split; [reflexivity|].
      exists pre, lab, col, ws, g, post. conj.
    - destruct (search vs_standalone_re text) as [m|] eqn:E2.
      + destruct (search_vs_standalone _ _ E2)
          as (pre & g & post & Ht & Hd & Hb & Ha & Hf & Hgr).
        exists [], g. split; [reflexivity|]. split; [exact Hgr|].
        exists pre, g, post. conj.
      + exists [], []. repeat split. }
  destruct Hv as (v & w & -> & Hw & Hvs). cbn [bind]. rewrite Hw. cbn [bind].
  eexists. split; [reflexivity|]. cbn [f_iban f_amount f_currency f_vs].
  split; [exact Hiban|]. split; [exact Hamount|]. split; [|exact Hvs].
  unfold currency_rule, czk_signal.
  destruct iban as [|c iban]; [|reflexivity].
  cbn [truthy andb]. destruct (startswith (py "CZ") []) eqn:E; [|reflexivity].
  apply startswith_nil_r in E. discriminate.
Qed.

(** *** The searches fail exactly on the texts without the pattern *)

Lemma can_block n b : is_block n b -> can (times d09 n) b.
Proof.
  intros [Hb Hn]. apply can_rep; [exact Hb|lia|simpl; lia].
Qed.

Lemma can_iban t : is_iban_layout t -> can iban_re t.
Proof.
  intros (prefix & b1 & g1 & b2 & g2 & b3 & g3 & b4 & g4 & b5 & g5 & b6 & ->
          & Hp & B1 & G1 & B2 & G2 & B3 & G3 & B4 & G4 & B5 & G5 & B6).
  unfold iban_re, iban_layout. apply can_group.
  assert (H : can (seq_of (lit prefix :: iban_tail))
                (prefix ++ b1 ++ g1 ++ b2 ++ g2 ++ b3 ++ g3 ++ b4 ++ g4 ++ b5
                 ++ g5 ++ b6)).
  { unfold iban_tail. cbn [seq_of].
    repeat apply can_seq;
      first [apply can_lit | apply can_block; assumption
            | apply can_gap; assumption]. }
  destruct Hp as [-> | ->]; [apply can_alt_l|apply can_alt_r]; exact H.
Qed.

Theorem search_iban_iff text : search iban_re text = None <-> ~ has_iban text.
Proof.
  split.
  - intros Hs (pre & t & post & -> & Ht).
    apply (can_search iban_re pre t post (can_iban t Ht)). exact Hs.
  - intros Hn. destruct (search iban_re text) eqn:E; [|reflexivity].
    exfalso. apply Hn.
    destruct (search_iban _ _ E) as (pre & t & post & Ht & Hl & _).
    exists pre, t, post. split; assumption.
Qed.

Theorem search_amount_iff text :
  search amount_re text = None <-> ~ has_amount text.
Proof.
  split.
  - intros Hs (pre & g & ws & mk & post & -> & Hg & Hws & Hmk).
    apply (can_search amount_re pre (g ++ ws ++ mk) post).
    + unfold amount_re. cbn [seq_of].
      apply can_seq; [apply can_group, can_number, Hg|].
      apply can_seq; [apply can_gap, Hws|apply can_group, can_marker, Hmk].
    + rewrite <- !app_assoc. exact Hs.
  - intros Hn. destruct (search amount_re text) eqn:E; [|reflexivity].
    exfalso. apply Hn.
    destruct (search_amount _ _ E)
      as (pre & g & ws & mk & post & Ht & Hg & Hws & Hmk & _).
    exists pre, g, ws, mk, post. conj.
Qed.

Theorem search_amount_rev_iff text :
  search amount_re_rev text = None <-> ~ has_amount_rev text.
Proof.
  split.
  - intros Hs (pre & mk & ws & g & post & -> & Hmk & Hws & Hg).
    apply (can_search amount_re_rev pre (mk ++ ws ++ g) post).
    + unfold amount_re_rev. cbn [seq_of].
      apply can_seq; [apply can_group, can_marker, Hmk|].
      apply can_seq; [apply can_gap, Hws|apply can_group, can_number, Hg].
    + rewrite <- !app_assoc. exact Hs.
  - intros Hn. destruct (search amount_re_rev text) eqn:E; [|reflexivity].
    exfalso. apply Hn.
    destruct (search_amount_rev _ _ E)
      as (pre & mk & ws & g & post & Ht & Hmk & Hws & Hg & _).
    exists pre, mk, ws, g, post. conj.
Qed.

Theorem search_vs_iff text :
  search vs_re text = None <-> ~ has_labelled_vs text.
Proof.
  split.
  - intros Hs (pre & lab & col & ws & g & post & -> & Hlab & Hcol & Hws & Hg).
    apply (can_search vs_re pre (lab ++ col ++ ws ++ g) post).
    + unfold vs_re. cbn [seq_of].
      apply can_seq; [apply can_group, can_label, Hlab|].
      apply can_seq.
      { apply can_rep; [|lia|].
        - destruct Hcol as [-> | ->]; repeat constructor.
        - destruct Hcol as [-> | ->]; simpl; lia. }
      apply can_seq; [apply can_rep; [exact Hws|lia|exact I]|].
      apply can_group. destruct Hg as [Hh Hl].
      apply can_rep; [exact Hh|lia|simpl; lia].
    + rewrite <- !app_assoc. exact Hs.
  - intros Hn. destruct (search vs_re text) eqn:E; [|reflexivity].
    exfalso. apply Hn.
    destruct (search_vs _ _ E)
      as (pre & lab & col & ws & g & post & Ht & Hlab & Hcol & Hws & Hg & _).
    exists pre, lab, col, ws, g, post. conj.
Qed.

Theorem search_vs_standalone_iff text :
  search vs_standalone_re text = None <-> ~ has_standalone_vs text.
Proof.
  split.
  - intros Hs (pre & g & post & -> & [Hh Hl] & Hb & Ha).
    apply search_none_iff in Hs. apply Hs.
    exists (List.length pre). split; [rewrite length_app; lia|].
    set (s0 := start_at (pre ++ g ++ post) (List.length pre)).
    assert (Hr0 : rest s0 = g ++ post) by apply start_at_rest.
    assert (Hp0 : prev s0 = last_char pre None).
    { unfold s0, start_at. cbn [prev].
      rewrite firstn_app, Nat.sub_diag, firstn_all, firstn_O, app_nil_r.
      reflexivity. }
    destruct g as [|d g1]; [simpl in Hl; lia|].
    assert (Hd : isdecimal d = true) by (inversion Hh; assumption).
    destruct (exists_last (l:=d :: g1)) as (g0 & x & Hx); [discriminate|].
    assert (Hxd : isdecimal x = true).
    { rewrite Hx in Hh. apply Forall_app in Hh. destruct Hh as [_ Hh].
      inversion Hh; assumption. }
    exists (set_group 1 (firstn (pos (after (d :: g1) post s0) - pos s0) (rest s0))
              (after (d :: g1) post s0)).
    unfold vs_standalone_re. cbn [seq_of denote]. fold s0.
    exists s0. split.
    { split; [|reflexivity]. unfold at_boundary. rewrite Hp0, Hr0.
      unfold no_word_before in Hb. rewrite Hb. cbn [app hd_error isword_opt].
      rewrite (isdecimal_word _ Hd). reflexivity. }
    eexists. split.
    { exists (after (d :: g1) post s0). split; [|reflexivity].
      exists (d :: g1). split; [exact Hh|]. split; [exact (proj1 Hl)|].
      split; [exact (proj2 Hl)|]. split; [exact Hr0|reflexivity]. }
    split; [|reflexivity].
    unfold at_boundary. cbn [set_group prev rest after].
    rewrite Hx at 1. rewrite last_char_app. cbn [isword_opt].
    rewrite (isdecimal_word _ Hxd). unfold no_word_after in Ha. rewrite Ha.
    reflexivity.
  - intros Hn. destruct (search vs_standalone_re text) eqn:E; [|reflexivity].
    exfalso. apply Hn.
    destruct (search_vs_standalone _ _ E)
      as (pre & g & post & Ht & Hg & Hb & Ha & _).
    exists pre, g, post. conj.
Qed.

End ExtractorFacts.

(** ** The QR Platba payload *)

Section EncoderFacts.
Context {U : Unicode}.







Lemma generate_qr_platba_eq iban amount currency vs msg :
  generate_qr_platba iban amount currency vs msg
  = encodeB_format iban amount currency vs msg.
Proof.
  unfold generate_qr_platba, encodeB_format, segment.
  destruct (PyFloat.gt0 amount), (truthy currency), (truthy msg), (truthy vs);
    rewrite <- ?app_assoc, ?app_nil_r; reflexivity.
Qed.

Lemma startswith_app p s : startswith p (p ++ s) = true.
Proof.
  induction p as [|c p IH]; [reflexivity|]. simpl. rewrite N.eqb_refl. exact IH.
Qed.

Lemma contains_app p a s : contains p s = true -> contains p (a ++ s) = true.
Proof.
  intros H. induction a as [|c a IH]; [exact H|].
  simpl. rewrite IH. apply orb_true_r.
Qed.

Lemma contains_here p s : contains p (p ++ s) = true.
Proof.
  destruct (p ++ s) eqn:E; simpl; rewrite <- E, startswith_app; reflexivity.
Qed.


(** C2: the encoder returns a payload for every input, the payload always
    carries the [ACC] segment of the identifier right after the header, and
    with no amount, currency, note and reference nothing else is in it. *)
Theorem C2_generate_qr_platba_total iban amount currency vs msg :
  (exists tail,
     generate_qr_platba iban amount currency vs msg
     = py "SPD*1.0*" ++ (py "ACC:" ++ iban) ++ py "*" ++ tail)
  /\ contains (py "ACC:" ++ iban)
       (generate_qr_platba iban amount currency vs msg) = true
  /\ generate_qr_platba iban PyFloat.zero [] [] []
     = py "SPD*1.0*" ++ (py "ACC:" ++ iban) ++ py "*"
  /\ generate_qr_platba [] PyFloat.zero [] [] [] = py "SPD*1.0*ACC:*".
Proof.
  assert (H : exists tail,
     generate_qr_platba iban amount currency vs msg
     = py "SPD*1.0*" ++ (py "ACC:" ++ iban) ++ py "*" ++ tail).
  { rewrite generate_qr_platba_eq. unfold encodeB_format.
    eexists. rewrite <- !app_assoc. reflexivity. }
  split; [exact H|]. split; [|split].
  - destruct H as (tail & ->). apply contains_app, contains_here.
  - reflexivity.
  - reflexivity.
Qed.

End EncoderFacts.

(** ** The payment form *)

Section FormFacts.
Context {U : Unicode}.
Variable gen : str -> spec_float -> str -> str -> str -> outcome.

Lemma generate_qr_platba_truthy iban amount currency vs msg :
  truthy (generate_qr_platba iban amount currency vs msg) = true.
Proof.
  rewrite generate_qr_platba_eq. reflexivity.
Qed.


(** C9: with an empty identifier the handler reports that the identifier is
    required and does nothing else, for either country: the encoder of
    [pay_by_square] is not called and no payload is produced. *)
Theorem C9_missing_identifier_blocks c amount currency vs msg :
  submit gen c [] amount currency vs msg = ([st_error msg_iban_required], None).
Proof. reflexivity. Qed.

End FormFacts.

(** ** The extracted fields *)

Section FieldFacts.
Context {U : Unicode}.

Lemma startswith_iff p s : startswith p s = true <-> begins p s.
Proof.
  unfold begins. revert s. induction p as [|a p IH]; intros s.
  - split; [intros _; exists s; reflexivity|reflexivity].
  - destruct s as [|b s]; simpl.
    + split; [discriminate|intros (t & H); discriminate].
    + rewrite andb_true_iff, N.eqb_eq, IH. split.
      * intros (-> & t & ->). exists t. reflexivity.
      * intros (t & H). inversion H; subst. split; [reflexivity|exists t; reflexivity].
Qed.


Lemma is_digits_holds lo hi g : is_digits lo hi g -> holds isdecimal g.
Proof. intros [H _]. exact H. Qed.

Lemma amount_rule_nonneg text a :
  amount_rule text a -> SFleb PyFloat.zero a = true.
Proof.
  unfold amount_rule. destruct (search amount_re text).
  - intros (pre & g & ws & mk & post & _ & _ & _ & _ & _ & _ & ->).
    apply of_ratio_nonneg.
  - destruct (search amount_re_rev text).
    + intros (pre & mk & ws & g & post & _ & _ & _ & _ & _ & _ & ->).
      apply of_ratio_nonneg.
    + intros ->. reflexivity.
Qed.

Lemma vs_rule_digits text v : vs_rule text v -> holds isdecimal v.
Proof.
  unfold vs_rule. destruct (search vs_re text).
  - intros (pre & lab & col & ws & g & post & _ & _ & _ & _ & Hd & _ & _ & ->).
    exact (is_digits_holds _ _ _ Hd).
  - destruct (search vs_standalone_re text).
    + intros (pre & g & post & _ & Hd & _ & _ & _ & _ & ->).
      exact (is_digits_holds _ _ _ Hd).
    + intros ->. constructor.
Qed.

(** C4: the amount is read from the first place where a number stands
    before a currency marker, with at most one white-space character in
    between; only when the text has no such place, from the first place
    where a number stands after a marker; and it is 0.0 when the text has
    neither.  A number is one to ten digits, a comma or a dot and two
    digits, the marker is taken in any case, and the value is that of the
    number with its separator read as a decimal point.  The examples of the
    specification evaluate to the binary64 numbers nearest to 123.45 and to
    9.90, the second one through the marker-first pattern. *)
Theorem C4_amount_extraction :
  (forall text, exists f,
      parse_text text = Some f /\ amount_rule text (f_amount f))
  /\ (forall text, search amount_re text = None <-> ~ has_amount text)
  /\ (forall text, search amount_re_rev text = None <-> ~ has_amount_rev text)
  /\ (forall g, is_amount_text g ->
        PyFloat.of_str (replace (ch ",") (py ".") g) = Some (amount_value g))
  /\ is_nearest_binary64 12345 100 float_123_45
  /\ is_nearest_binary64 990 100 float_9_90
  /\ (exists f, parse_text (py "Total 123,45 EUR") = Some f
                /\ f_amount f = float_123_45)
  /\ (exists f, parse_text (py "total 123,45 eur") = Some f
                /\ f_amount f = float_123_45)
  /\ (exists f, parse_text (py "EUR 9,90") = Some f
                /\ f_amount f = float_9_90)
  /\ search amount_re (py "EUR 9,90") = None.
Proof.
  split.
  { intros text. destruct (parse_text_rules text) as (f & Hf & _ & Ha & _).
    exists f. split; assumption. }
  split; [exact search_amount_iff|].
  split; [exact search_amount_rev_iff|].
  split; [exact of_str_amount|].
  split; [vm_compute; repeat split; first [reflexivity | discriminate]|].
  split; [vm_compute; repeat split; first [reflexivity | discriminate]|].
  split; [eexists; split; vm_compute; reflexivity|].
  split; [eexists; split; vm_compute; reflexivity|].
  split; [eexists; split; vm_compute; reflexivity|].
  vm_compute. reflexivity.
Qed.



(** C7: extraction returns fields for every text; the amount is a number
    that is not negative, the currency is EUR or CZK, the reference code
    consists of decimal digits, and a field whose pattern stands nowhere in
    the text has its default: the empty identifier, 0.0, EUR and the empty
    reference. *)
Theorem C7_parse_text_invariants text :
  exists f, parse_text text = Some f
    /\ SFleb PyFloat.zero (f_amount f) = true
    /\ (f_currency f = py "EUR" \/ f_currency f = py "CZK")
    /\ holds isdecimal (f_vs f)
    /\ (~ has_iban text -> f_iban f = [])
    /\ (~ has_amount text -> ~ has_amount_rev text ->
        f_amount f = PyFloat.zero)
    /\ (czk_signal text (f_iban f) = false -> f_currency f = py "EUR")
    /\ (~ has_labelled_vs text -> ~ has_standalone_vs text -> f_vs f = []).
Proof.
  destruct (parse_text_rules text) as (f & Hf & Hi & Ha & Hc & Hv).
  exists f. split; [exact Hf|].
  split; [exact (amount_rule_nonneg _ _ Ha)|].
  split; [rewrite Hc; destruct (czk_signal text (f_iban f));
          [right|left]; reflexivity|].
  split; [exact (vs_rule_digits _ _ Hv)|].
  split; [|split; [|split]].
  - intros Hn. apply search_iban_iff in Hn. unfold iban_rule in Hi.
    rewrite Hn in Hi. exact Hi.
  - intros H1 H2. apply search_amount_iff in H1.
    apply search_amount_rev_iff in H2. unfold amount_rule in Ha.
    rewrite H1, H2 in Ha. exact Ha.
  - intros E. rewrite Hc, E. reflexivity.
  - intros H1 H2. apply search_vs_iff in H1.
    apply search_vs_standalone_iff in H2. unfold vs_rule in Hv.
    rewrite H1, H2 in Hv. exact Hv.
Qed.

End FieldFacts.

(** ** Patterns that are sure to match *)

Section Forward.
Context {U : Unicode}.

Lemma rmatch_chr p k n pv c l gs :
  p c = true ->
  rmatch (Chr p) k (MState n pv (c :: l) gs) = k (MState (S n) (Some c) l gs).
Proof. intros H. simpl. rewrite H. reflexivity. Qed.

Lemma rmatch_seq_of r rs k s :
  rmatch (seq_of (r :: rs)) k s = rmatch r (rmatch (seq_of rs) k) s.
Proof. destruct rs; reflexivity. Qed.

(** A greedy repetition takes the whole run [cs] when the run cannot go on:
    the bound is reached, the text ends or the next character is not in
    the class; the rest of the pattern then succeeds from there. *)
Lemma rep_greedy p cs : forall lo hi k n pv gs l m,
  holds p cs -> lo <= List.length cs -> within hi (List.length cs) ->
  (hi = Some (List.length cs)
   \/ match l with [] => True | c :: _ => p c = false end) ->
  k (MState (List.length cs + n) (last_char cs pv) l gs) = Some m ->
  rep p lo hi k n pv gs (cs ++ l) = Some m.
Proof.
  induction cs as [|c cs IH]; intros lo hi k n pv gs l m Hcs Hlo Hhi Hend Hk.
  - simpl in Hlo. assert (lo = 0) by lia. subst lo. simpl in Hk. simpl app.
    destruct l as [|c l]; simpl.
    + destruct (hi_is_zero hi); exact Hk.
    + destruct (hi_is_zero hi) eqn:Hz; [exact Hk|].
      destruct Hend as [-> | Hp]; [discriminate|]. rewrite Hp. exact Hk.
  - inversion Hcs as [|? ? Hc Hcs1]; subst.
    change ((c :: cs) ++ l) with (c :: (cs ++ l)). cbn [rep].
    assert (Hz : hi_is_zero hi = false).
    { destruct hi as [[|h]|]; try reflexivity. simpl in Hhi. lia. }
    rewrite Hz, Hc.
    rewrite (IH (Nat.pred lo) (dec_hi hi) k (S n) (Some c) gs l m); try assumption.
    + reflexivity.
    + simpl in Hlo. lia.
    + destruct hi as [h|]; simpl in *; [lia|exact I].
    + destruct Hend as [-> | Hp]; [left; reflexivity|right; exact Hp].
    + rewrite last_char_cons in Hk. simpl List.length in Hk.
      replace (List.length cs + S n) with (S (List.length cs) + n) by lia.
      exact Hk.
Qed.

(** A literal consumes a text that equals it up to case. *)
Lemma lit_i_match p : forall cs k n pv l gs,
  ci_equal p cs ->
  rmatch (lit_i p) k (MState n pv (cs ++ l) gs)
  = k (MState (List.length cs + n) (last_char cs pv) l gs).
Proof.
  unfold lit_i.
  induction p as [|x p IH]; intros cs k n pv l gs H; inversion H; subst.
  - reflexivity.
  - cbn [map]. rewrite rmatch_seq_of.
    change ((y :: l') ++ l) with (y :: (l' ++ l)).
    rewrite rmatch_chr by assumption.
    rewrite IH by assumption. rewrite last_char_cons. simpl List.length.
    f_equal. f_equal. lia.
Qed.

Lemma isdecimal_not_space c : isdecimal c = true -> isspace c = false.
Proof.
  unfold isdecimal, isspace, todecimal.
  destruct (is_ascii c) eqn:Ha.
  - destruct (ascii_digit c) eqn:Hd; [|discriminate]. intros _.
    unfold ascii_digit in Hd. apply andb_prop in Hd. destruct Hd as [H1 H2].
    apply N.leb_le in H1, H2. unfold ascii_space.
    apply orb_false_intro; apply andb_false_intro2; apply N.leb_gt; lia.
  - destruct (u_todecimal c) eqn:Hd; [|discriminate]. intros _.
    eapply u_decimal_not_space. exact Hd.
Qed.

Lemma isdecimal_not_colon c : isdecimal c = true -> c_lit (ch ":") c = false.
Proof.
  intros H. unfold c_lit. apply N.eqb_neq. intros ->. discriminate H.
Qed.

Lemma isspace_not_colon c : isspace c = true -> c_lit (ch ":") c = false.
Proof.
  intros H. unfold c_lit. apply N.eqb_neq. intros ->. discriminate H.
Qed.

End Forward.

Section LabelledReference.
Context {U : Unicode}.

Lemma last_char_mid a y b pv : last_char (a ++ y :: b) pv = last_char b (Some y).
Proof.
  revert pv. induction a as [|c a IH]; intros pv.
  - apply last_char_cons.
  - change ((c :: a) ++ y :: b) with (c :: (a ++ y :: b)).
    rewrite last_char_cons. apply IH.
Qed.

Lemma firstn_consumed (cs l : str) n :
  firstn (List.length cs + n - n) (cs ++ l) = cs.
Proof.
  rewrite Nat.add_sub, firstn_app, Nat.sub_diag, firstn_all. simpl.
  apply app_nil_r.
Qed.

(** A character that matches [a] does not match [S]. *)
Lemma lit_a_not_s c : c_lit_i (ch "a") c = true -> c_lit_i (ch "S") c = false.
Proof.
  unfold c_lit_i. cbn. rewrite !orb_false_r.
  intros H. apply N.eqb_eq in H. rewrite H. reflexivity.
Qed.

Lemma label_match lab k n pv l gs m :
  is_label lab ->
  k (MState (List.length lab + n) (last_char lab pv) l gs) = Some m ->
  rmatch label_re k (MState n pv (lab ++ l) gs) = Some m.
Proof.
  intros [H | (a & y & b & -> & Ha & Hy & Hb)] Hk; unfold label_re; cbn [rmatch].
  - rewrite lit_i_match by assumption. rewrite Hk. reflexivity.
  - assert (Hfail : rmatch (lit_i (py "VS")) k
                      (MState n pv ((a ++ y :: b) ++ l) gs) = None).
    { inversion Ha as [|x1 c1 p1 a1 H1 Ha1]; subst.
      inversion Ha1 as [|x2 c2 p2 a2 H2 Ha2]; subst.
      apply lit_a_not_s in H2.
      change (lit_i (py "VS")) with (Seq (Chr (c_lit_i 86%N)) (Chr (c_lit_i 83%N))).
      change (ch "S") with 83%N in H2.
      cbn [rmatch app rest]. rewrite H1. cbn [rest advance]. rewrite H2.
      reflexivity. }
    rewrite Hfail. rewrite rmatch_seq_of.
    rewrite <- app_assoc. rewrite lit_i_match by assumption.
    rewrite rmatch_seq_of. change ((y :: b) ++ l) with (y :: (b ++ l)).
    rewrite rmatch_chr by assumption.
    change (seq_of [lit_i (py " symbol")]) with (lit_i (py " symbol")).
    rewrite lit_i_match by assumption.
    rewrite last_char_mid, length_app in Hk. simpl List.length in Hk.
    replace (List.length b + S (List.length a + n))
      with (List.length a + S (List.length b) + n) by lia.
    exact Hk.
Qed.

(** The labelled pattern matches a label, an optional colon, white space
    and a run of digits, and captures the run: all of it when it has at
    most ten digits and is not followed by another one, its first ten digits
    otherwise. *)
Lemma vs_re_match n pv lab col ws ds l :
  is_label lab -> (col = [] \/ col = py ":") ->
  holds isspace ws -> holds isdecimal ds ->
  1 <= List.length ds <= 10 ->
  (List.length ds = 10
   \/ match l with [] => True | c :: _ => isdecimal c = false end) ->
  exists m, match_here vs_re n pv (lab ++ col ++ ws ++ ds ++ l) = Some m
            /\ group m 2 = Some ds.
Proof.
  intros Hlab Hcol Hws Hds Hlen Hend.
  assert (Hhead : forall q : char -> bool,
            (forall c, isdecimal c = true -> q c = false) ->
            match ds ++ l with [] => True | c :: _ => q c = false end).
  { intros q Hq. destruct ds as [|d ds1]; [simpl in Hlen; lia|].
    inversion Hds; subst. simpl. apply Hq. assumption. }
  eexists. split.
  - unfold match_here, vs_re. rewrite rmatch_seq_of. cbn [rmatch].
    apply label_match; [assumption|].
    cbn [pos prev rest groups set_group].
    rewrite rmatch_seq_of. unfold opt. cbn [rmatch pos prev rest groups].
    apply (rep_greedy (c_lit (ch ":")) col).
    + destruct Hcol as [-> | ->]; repeat constructor.
    + lia.
    + destruct Hcol as [-> | ->]; simpl; lia.
    + destruct Hcol as [-> | ->]; [right|left; reflexivity].
      destruct ws as [|w ws1].
      * apply Hhead. apply isdecimal_not_colon.
      * inversion Hws; subst. simpl. apply isspace_not_colon. assumption.
    + rewrite rmatch_seq_of. unfold star. cbn [rmatch pos prev rest groups].
      apply (rep_greedy isspace ws); try assumption; try lia; try exact I.
      * right. apply Hhead. apply isdecimal_not_space.
      * change (seq_of [Group 2 (between isdecimal 1 10)])
          with (Group 2 (Rep isdecimal 1 (Some 10))).
        cbn [rmatch pos prev rest groups].
        apply (rep_greedy isdecimal ds); try assumption; try lia.
        -- simpl. lia.
        -- destruct Hend as [-> | H]; [left; reflexivity|right; exact H].
        -- cbn [pos]. rewrite firstn_consumed. reflexivity.
  - reflexivity.
Qed.

End LabelledReference.

Section TruncatedReference.
Context {U : Unicode}.

Lemma search_from_hit r n pv l m :
  match_here r n pv l = Some m -> search_from r n pv l = Some m.
Proof. intros H. destruct l; simpl; rewrite H; reflexivity. Qed.

(** The first successful attempt is the result of the search. *)
Lemma search_first r pre suf m :
  (forall i, i < List.length pre -> match_at r (pre ++ suf) i = None) ->
  match_here r (List.length pre) (last_char pre None) suf = Some m ->
  search r (pre ++ suf) = Some m.
Proof.
  intros Hpre Hm. rewrite search_skip by assumption.
  apply search_from_hit, Hm.
Qed.

Lemma first_at_none r text pre :
  first_at r text pre <->
  (forall i, i < List.length pre -> match_at r text i = None).
Proof.
  unfold first_at. split; intros H i Hi.
  - destruct (match_at r text i) eqn:E; [|reflexivity].
    exfalso. apply (H i Hi). apply match_at_iff. rewrite E. discriminate.
  - intros Hm. apply match_at_iff in Hm. apply Hm, H, Hi.
Qed.

(** C10: when the first label of the text is followed, after an optional
    colon and white space, by a run of more than ten digits, the reference
    code is the first ten digits of the run; the match is not rejected and
    the fallback is not consulted. *)
Theorem C10_labelled_run_is_truncated pre lab col ws ds d post :
  is_label lab -> (col = [] \/ col = py ":") ->
  holds isspace ws -> holds isdecimal ds -> List.length ds = 10 ->
  isdecimal d = true ->
  first_at vs_re (pre ++ lab ++ col ++ ws ++ ds ++ d :: post) pre ->
  exists f, parse_text (pre ++ lab ++ col ++ ws ++ ds ++ d :: post) = Some f
            /\ f_vs f = ds.
Proof.
  intros Hlab Hcol Hws Hds Hlen Hd Hpre.
  pose proof (proj1 (first_at_none _ _ _) Hpre) as Hnone. clear Hpre.
  rename Hnone into Hpre.
  destruct (vs_re_match (List.length pre) (last_char pre None) lab col ws ds
              (d :: post) Hlab Hcol Hws Hds ltac:(lia) (or_introl Hlen))
    as (m & Hm & Hg).
  pose proof (search_first vs_re pre _ m Hpre Hm) as Hs.
  destruct (parse_text_rules (pre ++ lab ++ col ++ ws ++ ds ++ d :: post))
    as (f & Hf & _ & _ & _ & Hv).
  exists f. split; [exact Hf|].
  unfold vs_rule in Hv. rewrite Hs in Hv.
  destruct Hv as (p1 & l1 & c1 & w1 & g & q1 & _ & _ & _ & _ & _ & _ & Hg1 & ->).
  rewrite Hg in Hg1. inversion Hg1. reflexivity.
Qed.

End TruncatedReference.

(** ** The account identifier *)

Section Identifier.
Context {U : Unicode}.

Lemma last_char_app2 a b pv :
  last_char (a ++ b) pv = last_char b (last_char a pv).
Proof.
  revert pv. induction a as [|c a IH]; intros pv; [reflexivity|].
  change ((c :: a) ++ b) with (c :: (a ++ b)).
  rewrite !last_char_cons. apply IH.
Qed.

Lemma after_app a b l s : after b l (after a (b ++ l) s) = after (a ++ b) l s.
Proof.
  unfold after. cbn [pos prev groups]. f_equal.
  - rewrite length_app. lia.
  - symmetry. apply last_char_app2.
Qed.

Lemma sure_seq r1 r2 a b l :
  sure r1 a (b ++ l) -> sure r2 b l -> sure (Seq r1 r2) (a ++ b) l.
Proof.
  intros H1 H2 k s m Hr Hk. cbn [rmatch].
  apply (H1 _ _ _ ltac:(rewrite Hr, <- app_assoc; reflexivity)).
  apply H2; [reflexivity|]. rewrite after_app. exact Hk.
Qed.

Lemma sure_rep p lo hi cs l :
  holds p cs -> lo <= List.length cs -> within hi (List.length cs) ->
  (hi = Some (List.length cs)
   \/ match l with [] => True | c :: _ => p c = false end) ->
  sure (Rep p lo hi) cs l.
Proof.
  intros Hcs Hlo Hhi Hend k s m Hr Hk. cbn [rmatch]. rewrite Hr.
  apply rep_greedy; assumption.
Qed.

Lemma sure_chr p c l : p c = true -> sure (Chr p) [c] l.
Proof.
  intros Hp k s m Hr Hk. destruct s as [n pv r gs]. simpl in Hr. subst r.
  rewrite rmatch_chr by assumption. exact Hk.
Qed.

Lemma sure_lit p l : sure (lit p) p l.
Proof.
  unfold lit. revert l. induction p as [|x p IH]; intros l.
  - intros k s m Hr Hk. destruct s as [n pv r gs]. simpl in Hr. subst r.
    exact Hk.
  - destruct p as [|y p].
    + apply sure_chr, N.eqb_refl.
    + change (x :: y :: p) with ([x] ++ (y :: p)).
      change (seq_of (map (fun x0 => Chr (c_lit x0)) ([x] ++ y :: p)))
        with (Seq (Chr (c_lit x))
                  (seq_of (map (fun x0 => Chr (c_lit x0)) (y :: p)))).
      apply sure_seq; [apply sure_chr, N.eqb_refl|apply IH].
Qed.

Lemma sure_block n b l : is_block n b -> sure (times d09 n) b l.
Proof.
  intros [Hb Hn]. apply sure_rep; try assumption; try lia.
  - simpl. lia.
  - left. rewrite Hn. reflexivity.
Qed.

Lemma d09_not_space c : d09 c = true -> isspace c = false.
Proof.
  intros H. apply isdecimal_not_space. unfold isdecimal, todecimal.
  unfold d09, c_range in H. change (ch "0") with 48%N in H.
  change (ch "9") with 57%N in H.
  assert (Ha : is_ascii c = true).
  { apply andb_prop in H. destruct H as [_ H]. apply N.leb_le in H.
    apply N.ltb_lt. lia. }
  rewrite Ha. unfold ascii_digit. rewrite H. reflexivity.
Qed.

Lemma sure_gap g n b l :
  is_gap g -> is_block (S n) b -> sure (opt isspace) g (b ++ l).
Proof.
  intros Hg [Hb Hn]. apply sure_rep.
  - destruct Hg as [-> | (w & -> & Hw)]; repeat constructor. exact Hw.
  - lia.
  - destruct Hg as [-> | (w & -> & Hw)]; simpl; lia.
  - destruct Hg as [-> | (w & -> & Hw)]; [right|left; reflexivity].
    destruct b as [|c b]; [discriminate|]. inversion Hb; subst.
    simpl. apply d09_not_space. assumption.
Qed.

Lemma sure_iban_tail b1 g1 b2 g2 b3 g3 b4 g4 b5 g5 b6 l :
  is_block 2 b1 -> is_gap g1 -> is_block 4 b2 -> is_gap g2 ->
  is_block 4 b3 -> is_gap g3 -> is_block 4 b4 -> is_gap g4 ->
  is_block 4 b5 -> is_gap g5 -> is_block 4 b6 ->
  sure (seq_of iban_tail)
    (b1 ++ g1 ++ b2 ++ g2 ++ b3 ++ g3 ++ b4 ++ g4 ++ b5 ++ g5 ++ b6) l.
Proof.
  intros B1 G1 B2 G2 B3 G3 B4 G4 B5 G5 B6.
  unfold iban_tail. cbn [seq_of].
  repeat (apply sure_seq; rewrite <- ?app_assoc);
    try (apply sure_block; assumption);
    try (eapply sure_gap; eassumption).
Qed.

(** The identifier pattern matches a laid-out identifier and captures all
    of it, gaps included. *)
Lemma iban_re_match n pv prefix b1 g1 b2 g2 b3 g3 b4 g4 b5 g5 b6 l :
  prefix = py "SK" \/ prefix = py "CZ" ->
  is_block 2 b1 -> is_gap g1 -> is_block 4 b2 -> is_gap g2 ->
  is_block 4 b3 -> is_gap g3 -> is_block 4 b4 -> is_gap g4 ->
  is_block 4 b5 -> is_gap g5 -> is_block 4 b6 ->
  exists m,
    match_here iban_re n pv
      (iban_layout prefix b1 g1 b2 g2 b3 g3 b4 g4 b5 g5 b6 ++ l) = Some m
    /\ group m 1 = Some (iban_layout prefix b1 g1 b2 g2 b3 g3 b4 g4 b5 g5 b6).
Proof.
  intros Hp B1 G1 B2 G2 B3 G3 B4 G4 B5 G5 B6.
  pose proof (sure_iban_tail b1 g1 b2 g2 b3 g3 b4 g4 b5 g5 b6 l
                B1 G1 B2 G2 B3 G3 B4 G4 B5 G5 B6) as Htail.
  unfold iban_layout.
  set (body := b1 ++ g1 ++ b2 ++ g2 ++ b3 ++ g3 ++ b4 ++ g4 ++ b5 ++ g5 ++ b6)
    in *.
  assert (Hsure : sure (seq_of (lit prefix :: iban_tail)) (prefix ++ body) l).
  { change (seq_of (lit prefix :: iban_tail))
      with (Seq (lit prefix) (seq_of iban_tail)).
    apply sure_seq; [apply sure_lit|exact Htail]. }
  set (s := MState n pv ((prefix ++ body) ++ l) []).
  set (k := fun s1 : mstate =>
              Some (set_group 1 (firstn (pos s1 - pos s) (rest s)) s1)).
  assert (Hm : rmatch (seq_of (lit prefix :: iban_tail)) k s
               = Some (set_group 1 (prefix ++ body) (after (prefix ++ body) l s))).
  { apply Hsure; [reflexivity|]. unfold k. cbn [pos rest after s].
    rewrite firstn_consumed. reflexivity. }
  exists (set_group 1 (prefix ++ body) (after (prefix ++ body) l s)).
  split; [|reflexivity].
  unfold match_here, iban_re. cbn [rmatch]. fold s. fold k.
  destruct Hp as [-> | ->].
  - rewrite Hm. reflexivity.
  - assert (Hfail : rmatch (seq_of (lit (py "SK") :: iban_tail)) k s = None)
      by reflexivity.
    rewrite Hfail. exact Hm.
Qed.

(** The identifier of a text whose first match is a laid-out identifier: the
    layout without its spaces U+0020. *)
Lemma parse_text_iban pre prefix b1 g1 b2 g2 b3 g3 b4 g4 b5 g5 b6 post :
  prefix = py "SK" \/ prefix = py "CZ" ->
  is_block 2 b1 -> is_gap g1 -> is_block 4 b2 -> is_gap g2 ->
  is_block 4 b3 -> is_gap g3 -> is_block 4 b4 -> is_gap g4 ->
  is_block 4 b5 -> is_gap g5 -> is_block 4 b6 ->
  first_at iban_re
    (pre ++ iban_layout prefix b1 g1 b2 g2 b3 g3 b4 g4 b5 g5 b6 ++ post) pre ->
  exists f,
    parse_text
      (pre ++ iban_layout prefix b1 g1 b2 g2 b3 g3 b4 g4 b5 g5 b6 ++ post)
    = Some f
    /\ f_iban f
       = replace (ch " ") []
           (iban_layout prefix b1 g1 b2 g2 b3 g3 b4 g4 b5 g5 b6).
Proof.
  intros Hp B1 G1 B2 G2 B3 G3 B4 G4 B5 G5 B6 Hpre.
  pose proof (proj1 (first_at_none _ _ _) Hpre) as Hnone. clear Hpre.
  rename Hnone into Hpre.
  destruct (iban_re_match (List.length pre) (last_char pre None) prefix
              b1 g1 b2 g2 b3 g3 b4 g4 b5 g5 b6 post
              Hp B1 G1 B2 G2 B3 G3 B4 G4 B5 G5 B6) as (m & Hm & Hg).
  pose proof (search_first iban_re pre _ m Hpre Hm) as Hs.
  destruct (parse_text_rules
              (pre ++ iban_layout prefix b1 g1 b2 g2 b3 g3 b4 g4 b5 g5 b6 ++ post))
    as (f & Hf & Hi & _).
  exists f. split; [exact Hf|].
  unfold iban_rule in Hi. rewrite Hs in Hi.
  destruct Hi as (p1 & t & q1 & _ & _ & _ & Hg1 & ->).
  rewrite Hg in Hg1. inversion Hg1. reflexivity.
Qed.

Lemma space_gap_is_gap g : is_space_gap g -> is_gap g.
Proof.
  intros [-> | ->]; [left; reflexivity|right]. exists (ch " ").
  split; reflexivity.
Qed.

Lemma replace_block n b : is_block n b -> replace (ch " ") [] b = b.
Proof.
  intros [Hb _]. apply replace_other. eapply holds_neq; [exact Hb|reflexivity].
Qed.

Lemma replace_space_gap g : is_space_gap g -> replace (ch " ") [] g = [].
Proof. intros [-> | ->]; reflexivity. Qed.

(** A space-grouped identifier is extracted without its spaces, the prefix
    kept. *)
Lemma parse_text_iban_spaces pre prefix b1 g1 b2 g2 b3 g3 b4 g4 b5 g5 b6 post :
  prefix = py "SK" \/ prefix = py "CZ" ->
  is_block 2 b1 -> is_space_gap g1 -> is_block 4 b2 -> is_space_gap g2 ->
  is_block 4 b3 -> is_space_gap g3 -> is_block 4 b4 -> is_space_gap g4 ->
  is_block 4 b5 -> is_space_gap g5 -> is_block 4 b6 ->
  first_at iban_re
    (pre ++ iban_layout prefix b1 g1 b2 g2 b3 g3 b4 g4 b5 g5 b6 ++ post) pre ->
  exists f,
    parse_text
      (pre ++ iban_layout prefix b1 g1 b2 g2 b3 g3 b4 g4 b5 g5 b6 ++ post)
    = Some f
    /\ f_iban f = prefix ++ b1 ++ b2 ++ b3 ++ b4 ++ b5 ++ b6.
Proof.
  intros Hp B1 G1 B2 G2 B3 G3 B4 G4 B5 G5 B6 Hpre.
  destruct (parse_text_iban pre prefix b1 g1 b2 g2 b3 g3 b4 g4 b5 g5 b6 post)
    as (f & Hf & Hi); try assumption; try (apply space_gap_is_gap; assumption).
  exists f. split; [exact Hf|]. rewrite Hi. unfold iban_layout.
  rewrite !replace_app.
  rewrite (replace_block _ _ B1), (replace_block _ _ B2), (replace_block _ _ B3),
    (replace_block _ _ B4), (replace_block _ _ B5), (replace_block _ _ B6).
  rewrite (replace_space_gap _ G1), (replace_space_gap _ G2),
    (replace_space_gap _ G3), (replace_space_gap _ G4), (replace_space_gap _ G5).
  destruct Hp as [-> | ->]; reflexivity.
Qed.

(** C3 (what the code does): the identifier pattern lets any white-space
    character stand between two blocks, but only spaces U+0020 are removed
    from the match.  For an identifier broken over two lines the extracted
    identifier keeps the line break, so its white space is not stripped. *)
Theorem C3_identifier_keeps_line_break :
  exists f,
    parse_text (py "IBAN: SK31 1200 0000 1987" ++ [10%N] ++ py "4263 7541 ")
    = Some f
    /\ f_iban f = py "SK31120000001987" ++ [10%N] ++ py "42637541"
    /\ isspace 10%N = true
    /\ List.length (f_iban f) = 25.
Proof.
  eexists. split; [vm_compute; reflexivity|].
  split; [reflexivity|]. split; reflexivity.
Qed.

End Identifier.

(** * Further properties of the code *)

(** ** Shape of the extracted identifier and reference *)

Section FieldShapes.
Context {U : Unicode}.

Lemma replace_drops old s : ~ In old (replace old [] s).
Proof.
  unfold replace. induction s as [|c s IH]; [intros []|].
  simpl. destruct (N.eqb_spec c old) as [E|E]; simpl; [exact IH|].
  intros [H|H]; [congruence|exact (IH H)].
Qed.

Lemma replace_gap_length g :
  is_gap g -> List.length (replace (ch " ") [] g) <= 1.
Proof.
  intros [-> | (w & -> & _)]; [simpl; lia|].
  unfold replace. simpl. destruct (w =? ch " ")%N; simpl; lia.
Qed.

Lemma block_length n b : is_block n b -> List.length b = n.
Proof. intros [_ H]. exact H. Qed.

(** The extracted identifier is empty or starts with the prefix [SK] or
    [CZ], has 24 to 29 characters and holds no space U+0020. *)
Theorem parse_text_iban_shape text :
  exists f, parse_text text = Some f
    /\ (f_iban f = []
        \/ ((begins (py "SK") (f_iban f) \/ begins (py "CZ") (f_iban f))
            /\ 24 <= List.length (f_iban f) <= 29
            /\ ~ In (ch " ") (f_iban f))).
Proof.
  destruct (parse_text_rules text) as (f & Hf & Hi & _).
  exists f. split; [exact Hf|]. unfold iban_rule in Hi.
  destruct (search iban_re text); [|left; exact Hi]. right.
  destruct Hi as (pre & t & post & _ & Hl & _ & _ & ->).
  destruct Hl as (prefix & b1 & g1 & b2 & g2 & b3 & g3 & b4 & g4 & b5 & g5 & b6
                  & -> & Hp & B1 & G1 & B2 & G2 & B3 & G3 & B4 & G4 & B5 & G5 & B6).
  split; [|split; [|apply replace_drops]].
  - unfold iban_layout. rewrite replace_app.
    destruct Hp as [-> | ->]; [left|right]; eexists; reflexivity.
  - unfold iban_layout. rewrite !replace_app.
    rewrite (replace_block _ _ B1), (replace_block _ _ B2),
      (replace_block _ _ B3), (replace_block _ _ B4), (replace_block _ _ B5),
      (replace_block _ _ B6).
    rewrite !length_app.
    rewrite (block_length _ _ B1), (block_length _ _ B2), (block_length _ _ B3),
      (block_length _ _ B4), (block_length _ _ B5), (block_length _ _ B6).
    pose proof (replace_gap_length _ G1). pose proof (replace_gap_length _ G2).
    pose proof (replace_gap_length _ G3). pose proof (replace_gap_length _ G4).
    pose proof (replace_gap_length _ G5).
    assert (Hpl : List.length (replace (ch " ") [] prefix) = 2)
      by (destruct Hp as [-> | ->]; reflexivity).
    rewrite Hpl. lia.
Qed.

(** The extracted reference has at most ten digits; it is not empty when
    the text has a labelled reference, and it has exactly ten digits when it
    comes from a standalone run. *)
Theorem parse_text_vs_length text :
  exists f, parse_text text = Some f
    /\ List.length (f_vs f) <= 10
    /\ (has_labelled_vs text -> 1 <= List.length (f_vs f))
    /\ (~ has_labelled_vs text -> has_standalone_vs text ->
        List.length (f_vs f) = 10).
Proof.
  destruct (parse_text_rules text) as (f & Hf & _ & _ & _ & Hv).
  exists f. split; [exact Hf|]. unfold vs_rule in Hv.
  destruct (search vs_re text) eqn:E1.
  - destruct Hv as (p1 & l1 & c1 & w1 & g & q1 & _ & _ & _ & _ & [_ Hlen] & _ & _ & ->).
    split; [lia|]. split; [intros _; lia|].
    intros Hn. apply search_vs_iff in Hn. congruence.
  - destruct (search vs_standalone_re text) eqn:E2.
    + destruct Hv as (p1 & g & q1 & _ & [_ Hlen] & _ & _ & _ & _ & ->).
      split; [lia|]. split; [|intros _ _; lia].
      intros Hl. apply search_vs_iff in E1. contradiction.
    + rewrite Hv. split; [simpl; lia|]. split.
      * intros Hl. apply search_vs_iff in E1. contradiction.
      * intros _ Hs. apply search_vs_standalone_iff in E2. contradiction.
Qed.

End FieldShapes.

(** ** The payload: what is not escaped, and amounts below half a hundredth *)

Section PayloadEdges.
Context {U : Unicode}.

Lemma upper_app a b : upper (a ++ b) = upper a ++ upper b.
Proof. apply flat_map_app. Qed.

(** An asterisk in the note is not escaped: a note that ends with the text
    of an [X-VS] segment gives the payload of a shorter note with that
    reference. *)
Theorem note_can_forge_reference iban amount currency m v :
  truthy m = true -> truthy v = true -> upper v = v ->
  generate_qr_platba iban amount currency [] (m ++ py "*X-VS:" ++ v)
  = generate_qr_platba iban amount currency v m.
Proof.
  intros Hm Hv Hu. rewrite !generate_qr_platba_eq. unfold encodeB_format.
  assert (Ht : truthy (m ++ py "*X-VS:" ++ v) = true)
    by (destruct m; [discriminate|reflexivity]).
  rewrite Ht, Hm, Hv. unfold segment. cbn [truthy].
  rewrite !upper_app, Hu.
  change (upper (py "*X-VS:")) with (py "*X-VS:").
  rewrite app_nil_r, <- !app_assoc. reflexivity.
Qed.

(** A positive amount below half a hundredth passes the test [amount > 0]
    and is printed as [0.00]. *)
Theorem tiny_amount_is_printed_as_zero iban m k :
  (200 * Npos m < Npos (2 ^ k))%N ->
  PyFloat.gt0 (S754_finite false m (Zneg k)) = true
  /\ PyFloat.format_2f (S754_finite false m (Zneg k)) = py "0.00"
  /\ generate_qr_platba iban (S754_finite false m (Zneg k)) [] [] []
     = py "SPD*1.0*ACC:" ++ iban ++ py "*AM:0.00*".
Proof.
  intros H.
  assert (Hh : PyFloat.hundredths m (Zneg k) = 0%N).
  { unfold PyFloat.hundredths.
    assert (Hq : (100 * Npos m / Npos (2 ^ k) = 0)%N)
      by (apply N.div_small; lia).
    assert (Hr : (100 * Npos m mod Npos (2 ^ k) = 100 * Npos m)%N)
      by (apply N.mod_small; lia).
    rewrite Hq, Hr.
    destruct (N.compare_spec (2 * (100 * Npos m)) (Npos (2 ^ k))) as [E|E|E];
      try lia; reflexivity. }
  assert (Hf : PyFloat.format_2f (S754_finite false m (Zneg k)) = py "0.00").
  { unfold PyFloat.format_2f. rewrite Hh. reflexivity. }
  split; [reflexivity|]. split; [exact Hf|].
  unfold generate_qr_platba.
  change (PyFloat.gt0 (S754_finite false m (Zneg k))) with true.
  cbn [truthy]. rewrite Hf. rewrite <- !app_assoc. reflexivity.
Qed.

End PayloadEdges.

(** ** The form: library failures and the preselected values *)

Section FormEdges.
Context {U : Unicode}.
Variable gen : str -> spec_float -> str -> str -> str -> outcome.


(** The preselected country and currency agree for Czech identifiers: for
    the fields extracted from any text the form preselects the Czech
    invoice exactly when the identifier starts with [CZ], and then the
    preselected currency is CZK; submitted unedited, these values give the
    QR Platba payload of the extracted fields. *)
Theorem czech_defaults_agree text :
  exists f, parse_text text = Some f
    /\ (fst (form_initial (state_of f)) = Czech <-> begins (py "CZ") (f_iban f))
    /\ (begins (py "CZ") (f_iban f) ->
        form_initial (state_of f)
        = (Czech, (f_iban f, f_amount f, py "CZK", f_vs f, []))
        /\ snd (submit gen Czech (f_iban f) (f_amount f) (py "CZK") (f_vs f) [])
           = Some (generate_qr_platba (f_iban f) (f_amount f) (py "CZK")
                     (f_vs f) [])).
Proof.
  destruct (parse_text_rules text) as (f & Hf & _ & _ & Hc & _).
  exists f. split; [exact Hf|].
  assert (Hcz : forall iban, begins (py "CZ") iban ->
                  truthy iban && startswith (py "CZ") iban = true).
  { intros iban Hb. apply startswith_iff in Hb. rewrite Hb.
    destruct iban; [discriminate|reflexivity]. }
  split.
  - unfold form_initial, fill_defaults, state_of, default_country_index.
    cbn [fst or_default ss_iban f_iban]. split.
    + intros H. apply startswith_iff.
      destruct (truthy (f_iban f)); [|discriminate].
      destruct (startswith (py "CZ") (f_iban f)); [reflexivity|discriminate].
    + intros Hb. rewrite (Hcz _ Hb). reflexivity.
  - intros Hb. pose proof (Hcz _ Hb) as Ht.
    assert (Hcur : f_currency f = py "CZK").
    { rewrite Hc. unfold czk_signal. apply startswith_iff in Hb. rewrite Hb.
      rewrite orb_true_r. reflexivity. }
    split.
    + unfold form_initial, fill_defaults, state_of, default_country_index.
      cbn [or_default ss_iban ss_amount ss_currency ss_vs f_iban f_amount
           f_currency f_vs]. rewrite Ht, Hcur. reflexivity.
    + apply andb_prop in Ht. destruct Ht as [Ht Hs].
      unfold submit, dispatch. rewrite Ht, Hs.
      cbn [negb when then_ emit ret fst snd app]. unfold render.
      rewrite generate_qr_platba_truthy. reflexivity.
Qed.

Lemma str_eqb_eq a b : str_eqb a b = true <-> a = b.
Proof.
  revert b. induction a as [|x a IH]; intros [|y b]; simpl;
    try (split; [discriminate|discriminate]); [tauto|].
  rewrite andb_true_iff, N.eqb_eq, IH. split.
  - intros [-> ->]. reflexivity.
  - intros E. inversion E. split; reflexivity.
Qed.

(** The form shows the extracted fields as they are: the currency that
    [parse_text] returns is always one of the two entries of the select
    box.  A currency in the session is shown unchanged only if it is EUR or
    CZK; any other one is shown as CZK. *)
Theorem form_shows_extracted_fields text :
  (exists f, parse_text text = Some f
     /\ snd (form_initial (state_of f))
        = (f_iban f, f_amount f, f_currency f, f_vs f, []))
  /\ (forall c, selectbox (currency_index c) = c
                <-> c = py "EUR" \/ c = py "CZK")
  /\ (forall c, c <> py "EUR" -> selectbox (currency_index c) = py "CZK").
Proof.
  assert (Hsel : forall c, c <> py "EUR" ->
                   selectbox (currency_index c) = py "CZK").
  { intros c Hc. unfold currency_index.
    destruct (str_eqb c (py "EUR")) eqn:E; [|reflexivity].
    apply str_eqb_eq in E. contradiction. }
  split; [|split; [|exact Hsel]].
  - destruct (parse_text_rules text) as (f & Hf & _ & _ & Hc & _).
    exists f. split; [exact Hf|].
    unfold form_initial, fill_defaults, state_of.
    cbn [snd or_default ss_iban ss_amount ss_currency ss_vs f_iban f_amount
         f_currency f_vs].
    unfold currency_rule in Hc. rewrite Hc.
    destruct (czk_signal text (f_iban f)); reflexivity.
  - intros c. split.
    + intros E. unfold currency_index in E.
      destruct (str_eqb c (py "EUR")); simpl in E; [left|right];
        symmetry; exact E.
    + intros [-> | ->]; reflexivity.
Qed.

End FormEdges.

(** ** The upload handler *)

Section UploadFacts.
Context {U : Unicode}.
Variables upload image : Type.
Variable file_type : upload -> str.
Variable convert_from_bytes : upload -> attempt (list image).
Variable image_open : upload -> attempt image.
Variable image_to_string : image -> attempt str.


Lemma lstrip_blank s : holds isspace s -> lstrip s = [].
Proof.
  induction 1 as [|c s Hc _ IH]; [reflexivity|]. simpl. rewrite Hc. exact IH.
Qed.

Lemma strip_blank s : holds isspace s -> strip s = [].
Proof.
  intros H. unfold strip, rstrip. rewrite (lstrip_blank s H). reflexivity.
Qed.

Lemma snd_then_ (A B : Type) (x : ui A) (f : A -> ui B) :
  snd (then_ x f) = snd (f (snd x)).
Proof.
  unfold then_. destruct x as [l1 a]. cbn [snd]. destruct (f a). reflexivity.
Qed.

Lemma extract_text_blank img :
  blank_page image_to_string img ->
  holds isspace (snd (extract_text_from_image image_to_string img)).
Proof.
  unfold blank_page, extract_text_from_image.
  destruct (image_to_string img) as [text|e]; intros H; [exact H|constructor].
Qed.

Lemma read_pages_blank images : forall full_text,
  Forall (blank_page image_to_string) images -> holds isspace full_text ->
  holds isspace (snd (read_pages image_to_string images full_text)).
Proof.
  induction images as [|img images IH]; intros full_text Hb Hf; [exact Hf|].
  inversion Hb as [|? ? Hi Hbs]; subst. cbn [read_pages].
  rewrite snd_then_. apply IH; [exact Hbs|].
  apply Forall_app. split; [exact Hf|].
  apply Forall_app. split; [apply extract_text_blank, Hi|repeat constructor].
Qed.

(** When the file gives pages but every page is blank or unreadable, the
    fields keep their reset values and the last message is the warning that
    no text was extracted. *)
Theorem on_upload_blank file st images :
  snd (process_file file_type convert_from_bytes image_open file) = images -> images <> [] ->
  Forall (blank_page image_to_string) images ->
  snd (on_upload file_type convert_from_bytes image_open image_to_string (Some file) st) = Some reset_state
  /\ exists ev, fst (on_upload file_type convert_from_bytes image_open image_to_string (Some file) st) = ev ++ [st_warning msg_no_text].
Proof.
  intros Hp Hne Hb. unfold on_upload.
  destruct (process_file file_type convert_from_bytes image_open file) as [ev1 imgs]. cbn [snd] in Hp. subst imgs.
  cbn [then_]. destruct images as [|img images]; [contradiction|].
  pose proof (read_pages_blank (img :: images) [] Hb ltac:(constructor)) as Hr.
  destruct (read_pages image_to_string (img :: images) []) as [ev2 full_text].
  cbn [snd] in Hr. cbn [then_]. rewrite (strip_blank _ Hr). cbn.
  split; [reflexivity|].
  exists (ev1 ++ ev2). rewrite <- app_assoc. reflexivity.
Qed.


Lemma read_pages_joins images acc :
  read_pages image_to_string images acc
  = (flat_map (page_errors image_to_string) images,
     acc ++ joined_text image_to_string images).
Proof.
  revert acc. induction images as [|img images IH]; intros acc.
  - simpl. unfold ret, joined_text. simpl. rewrite app_nil_r. reflexivity.
  - cbn [read_pages flat_map joined_text]. unfold extract_text_from_image.
    unfold page_errors at 1, page_text at 1.
    destruct (image_to_string img) as [text|e];
      cbn [then_ emit ret app]; rewrite IH; unfold joined_text;
      rewrite <- ?app_assoc; reflexivity.
Qed.

(** When the pages give some text, the fields come from the texts of all
    pages joined by line breaks, a page that cannot be read counting as an
    empty one and reporting its error; the session then holds exactly the
    extracted fields and the last message is the success notice. *)
Theorem on_upload_extracts file st images :
  snd (process_file file_type convert_from_bytes image_open file) = images ->
  images <> [] ->
  truthy (strip (joined_text image_to_string images)) = true ->
  exists f,
    parse_text (joined_text image_to_string images) = Some f
    /\ on_upload file_type convert_from_bytes image_open image_to_string (Some file) st
       = (fst (process_file file_type convert_from_bytes image_open file)
            ++ flat_map (page_errors image_to_string) images
            ++ [st_success msg_extracted],
          Some (state_of f)).
Proof.
  intros Hp Hne Ht.
  destruct (parse_text_rules (joined_text image_to_string images))
    as (f & Hf & _).
  exists f. split; [exact Hf|]. unfold on_upload.
  destruct (process_file file_type convert_from_bytes image_open file)
    as [ev1 imgs]. cbn [fst snd] in *. subst imgs.
  destruct images as [|img images]; [contradiction|].
  cbn [then_]. rewrite read_pages_joins. cbn [app].
  unfold then_ at 1. rewrite Ht, Hf. cbn [then_ emit ret].
  rewrite app_nil_r. reflexivity.
Qed.

End UploadFacts.

(** ** An extracted amount is printed as it was written *)

Section AmountRoundTrip.
Context {U : Unicode}.
Open Scope Z_scope.

Lemma digits2_pos_bounds p :
  2 ^ (Zpos (digits2_pos p) - 1) <= Zpos p < 2 ^ Zpos (digits2_pos p).
Proof.
  induction p as [p IH|p IH|]; cbn [digits2_pos].
  - rewrite Pos2Z.inj_succ.
    replace (Z.succ (Zpos (digits2_pos p)) - 1) with (Z.succ (Zpos (digits2_pos p) - 1)) by lia.
    rewrite !Z.pow_succ_r by lia. lia.
  - rewrite Pos2Z.inj_succ.
    replace (Z.succ (Zpos (digits2_pos p)) - 1) with (Z.succ (Zpos (digits2_pos p) - 1)) by lia.
    rewrite !Z.pow_succ_r by lia. lia.
  - simpl. lia.
Qed.

Lemma digits2_pos_le p k :
  0 <= k -> Zpos p < 2 ^ k -> Zpos (digits2_pos p) <= k.
Proof.
  intros Hk Hp. pose proof (digits2_pos_bounds p) as [Hlo _].
  assert (H : 2 ^ (Zpos (digits2_pos p) - 1) < 2 ^ k) by lia.
  apply Z.pow_lt_mono_r_iff in H; lia.
Qed.

Lemma shr_1_half m r s :
  0 <= m ->
  2 * shr_m (shr_1 (Build_shr_record m r s)) <= m
  < 2 * (shr_m (shr_1 (Build_shr_record m r s)) + 1).
Proof.
  intros Hm. destruct m as [|[p|p|]|p]; cbn [shr_1 shr_m]; lia.
Qed.

(** One normalisation step on a magnitude below [2^54]: at most one bit is
    shifted out, and the result is below [2^53]. *)
Lemma shr_fexp_spec m e l :
  0 <= m < 2 ^ 54 -> -1000 <= e <= 900 ->
  exists t m1,
    shr_m (fst (shr_fexp PyFloat.prec PyFloat.emax m e l)) = m1
    /\ snd (shr_fexp PyFloat.prec PyFloat.emax m e l) = e + t
    /\ (t = 0 \/ t = 1)
    /\ 2 ^ t * m1 <= m < 2 ^ t * (m1 + 1)
    /\ 0 <= m1 < 2 ^ 53.
Proof.
  intros [Hm0 Hm] He. unfold shr_fexp, shr, fexp, emin, PyFloat.prec, PyFloat.emax.
  assert (Hrec : shr_m (shr_record_of_loc m l) = m)
    by (destruct l as [|[| |]]; reflexivity).
  destruct m as [|p|p]; [| |lia].
  - cbn [Zdigits2].
    replace (Z.max (0 + e - 53) (3 - 1024 - 53) - e) with (-53) by lia.
    exists 0, 0. cbn [fst snd]. rewrite Hrec.
    split; [reflexivity|]. split; [lia|]. split; [left; reflexivity|]. lia.
  - cbn [Zdigits2].
    pose proof (digits2_pos_bounds p) as [Hlo Hhi].
    pose proof (digits2_pos_le p 54 ltac:(lia) Hm) as Hd.
    replace (Z.max (Zpos (digits2_pos p) + e - 53) (3 - 1024 - 53) - e)
      with (Zpos (digits2_pos p) - 53) by lia.
    destruct (Zpos (digits2_pos p) - 53) as [|z|z] eqn:Ez.
    + exists 0, (Zpos p). cbn [fst snd]. rewrite Hrec.
      assert (Zpos p < 2 ^ 53)
        by (replace (Zpos (digits2_pos p)) with 53 in Hhi by lia; exact Hhi).
      split; [reflexivity|]. split; [lia|]. split; [left; reflexivity|].
      change (2 ^ 0) with 1. lia.
    + assert (z = 1%positive) by lia. subst z. cbn [fst snd iter_pos].
      destruct (shr_record_of_loc (Zpos p) l) as [m0 r0 s0] eqn:Er.
      cbn [shr_m] in Hrec. subst m0.
      pose proof (shr_1_half (Zpos p) r0 s0 ltac:(lia)) as Hh.
      eexists 1, _. split; [reflexivity|]. split; [reflexivity|].
      split; [right; reflexivity|].
      change (2 ^ 1) with 2. split; [exact Hh|].
      destruct p as [p|p|]; cbn [shr_1 shr_m] in *; lia.
    + exists 0, (Zpos p). cbn [fst snd]. rewrite Hrec.
      assert (HH : Zpos p < 2 ^ 53).
      { assert (Hle : Zpos (digits2_pos p) <= 53) by lia.
        eapply Z.lt_le_trans; [exact Hhi|].
        apply Z.pow_le_mono_r; lia. }
      split; [reflexivity|]. split; [lia|]. split; [left; reflexivity|].
      change (2 ^ 0) with 1. lia.
Qed.

(** Rounding a magnitude [q] below [2^54]: the result is finite, its
    exponent is at most two above [e], and its mantissa brackets [q]. *)
Lemma binary_round_aux_bracket q e l :
  4 <= q < 2 ^ 54 -> -1000 <= e <= 800 ->
  exists m T,
    binary_round_aux PyFloat.prec PyFloat.emax false q e l
    = S754_finite false m (e + T)
    /\ 0 <= T <= 2
    /\ q - 4 < 2 ^ T * Zpos m <= q + 2.
Proof.
  intros Hq He. unfold binary_round_aux.
  destruct (shr_fexp_spec q e l ltac:(lia) ltac:(lia))
    as (t1 & m1 & Hm1 & He1 & Ht1 & Hb1 & Hr1).
  destruct (shr_fexp PyFloat.prec PyFloat.emax q e l) as [mrs1 e1].
  cbn [fst snd] in Hm1, He1. subst e1.
  set (m2 := round_nearest_even (shr_m mrs1) (loc_of_shr_record mrs1)).
  assert (Hm2 : m1 <= m2 <= m1 + 1).
  { unfold m2. rewrite Hm1. unfold round_nearest_even.
    destruct (loc_of_shr_record mrs1) as [|[| |]]; try lia.
    destruct (Z.even m1); lia. }
  destruct (shr_fexp_spec m2 (e + t1) loc_Exact ltac:(lia) ltac:(lia))
    as (t2 & m3 & Hm3 & He3 & Ht2 & Hb3 & Hr3).
  destruct (shr_fexp PyFloat.prec PyFloat.emax m2 (e + t1) loc_Exact)
    as [mrs3 e3].
  cbn [fst snd] in Hm3, He3. subst e3. rewrite Hm3.
  assert (Hbr : q - 4 < 2 ^ (t1 + t2) * m3 <= q + 2).
  { destruct Ht1 as [-> | ->], Ht2 as [-> | ->];
      cbn [Z.add] in *; change (2 ^ 0) with 1 in *; change (2 ^ 1) with 2 in *;
      change (2 ^ 2) with 4; lia. }
  assert (Hpos : 0 < m3).
  { destruct Ht1 as [-> | ->], Ht2 as [-> | ->];
      cbn [Z.add] in *; change (2 ^ 0) with 1 in *; change (2 ^ 1) with 2 in *;
      change (2 ^ 2) with 4 in *; lia. }
  destruct m3 as [|m|m]; try lia.
  unfold PyFloat.emax, PyFloat.prec.
  assert (Hle : (e + t1 + t2 <=? 1024 - 53) = true) by (apply Z.leb_le; lia).
  rewrite Hle. exists m, (t1 + t2).
  split; [f_equal; lia|]. split; [lia|exact Hbr].
Qed.

Lemma div_core_100 p :
  Zpos p < 10 ^ 12 ->
  exists s,
    20 <= s <= 59
    /\ 2 ^ 59 <= Zpos p * 2 ^ s < 2 ^ 60
    /\ SFdiv_core_binary PyFloat.prec PyFloat.emax (Zpos p) 0 100 0
       = (Zpos p * 2 ^ s / 100, - s,
          new_location 100 ((Zpos p * 2 ^ s) mod 100)).
Proof.
  intros Hp. pose proof (digits2_pos_bounds p) as [Hlo Hhi].
  assert (Hd : Zpos (digits2_pos p) <= 40).
  { apply digits2_pos_le; [lia|]. eapply Z.lt_trans; [exact Hp|]. reflexivity. }
  set (d := Zpos (digits2_pos p)) in *.
  exists (60 - d). split; [lia|]. split.
  - assert (Hd1 : 1 <= d) by (unfold d; lia).
    assert (E59 : 2 ^ 59 = 2 ^ (d - 1) * 2 ^ (60 - d))
      by (rewrite <- Z.pow_add_r by lia; f_equal; lia).
    assert (E60 : 2 ^ 60 = 2 ^ d * 2 ^ (60 - d))
      by (rewrite <- Z.pow_add_r by lia; f_equal; lia).
    rewrite E59, E60.
    assert (0 < 2 ^ (60 - d)) by (apply Z.pow_pos_nonneg; lia). nia.
  - unfold SFdiv_core_binary, fexp, emin, PyFloat.prec, PyFloat.emax.
    cbn [Zdigits2]. fold d. change (Zpos (digits2_pos 100)) with 7.
    replace (Z.min (Z.max (d + 0 - (7 + 0) - 53) (3 - 1024 - 53)) (0 - 0))
      with (d - 60) by lia.
    replace (0 - 0 - (d - 60)) with (60 - d) by lia.
    destruct (60 - d) as [|z|z] eqn:Ez; try lia.
    rewrite Z.shiftl_mul_pow2 by lia.
    unfold Z.div, Z.modulo.
    destruct (Z.div_eucl (Zpos p * 2 ^ Zpos z) 100) as [q r].
    cbn [fst snd]. f_equal. f_equal. lia.
Qed.

(** The binary64 number nearest to [p / 100], for [p] below [10^12], is
    less than half a hundredth away from it. *)
Lemma of_ratio_100_close p :
  Zpos p < 10 ^ 12 ->
  exists m k,
    PyFloat.of_ratio (Npos p) 100 = S754_finite false m (Zneg k)
    /\ 2 * Z.abs (100 * Zpos m - Zpos p * 2 ^ Zpos k) < 2 ^ Zpos k.
Proof.
  intros Hp. unfold PyFloat.of_ratio.
  destruct (div_core_100 p Hp) as (s & Hs & Hps & Hcore). rewrite Hcore.
  set (P := Zpos p * 2 ^ s) in *. set (q := P / 100).
  assert (Hq : 100 * q <= P < 100 * q + 100).
  { unfold q. pose proof (Z.div_mod P 100 ltac:(lia)).
    pose proof (Z.mod_pos_bound P 100 ltac:(lia)). lia. }
  assert (Hq4 : 4 <= q < 2 ^ 54).
  { change (2 ^ 59) with 576460752303423488 in Hps.
    change (2 ^ 60) with 1152921504606846976 in Hps.
    change (2 ^ 54) with 18014398509481984. lia. }
  destruct (binary_round_aux_bracket q (- s) (new_location 100 (P mod 100))
              Hq4 ltac:(lia)) as (m & T & Hr & HT & Hb).
  rewrite Hr.
  assert (Hk : exists k, - s + T = Zneg k /\ Zpos k = s - T).
  { destruct (- s + T) as [|z|z] eqn:E; try lia. exists z. split; [reflexivity|lia]. }
  destruct Hk as (k & Hk1 & Hk2). rewrite Hk1. exists m, k.
  split; [reflexivity|]. rewrite Hk2.
  assert (HsT : 2 ^ s = 2 ^ T * 2 ^ (s - T))
    by (rewrite <- Z.pow_add_r by lia; f_equal; lia).
  assert (H18 : 2 ^ 18 <= 2 ^ (s - T)) by (apply Z.pow_le_mono_r; lia).
  change (2 ^ 18) with 262144 in H18.
  assert (HT3 : 1 <= 2 ^ T <= 4).
  { assert (T = 0 \/ T = 1 \/ T = 2) as [-> | [-> | ->]] by lia;
      [change (2 ^ 0) with 1|change (2 ^ 1) with 2|change (2 ^ 2) with 4]; lia. }
  unfold P in Hq. rewrite HsT in Hq.
  set (A := 2 ^ T) in *. set (B := 2 ^ (s - T)) in *. set (M := Zpos m) in *.
  set (n := Zpos p) in *.
  clearbody A B M n. clear - Hq Hb HT3 H18.
  assert (H1 : 100 * (A * M) - 200 <= n * (A * B)) by nia.
  assert (H2 : n * (A * B) < 100 * (A * M) + 500) by nia.
  assert (H3 : A * (100 * M - n * B) <= 200) by nia.
  assert (H4 : A * (n * B - 100 * M) < 500) by nia.
  assert (H5 : 100 * M - n * B <= 200) by nia.
  assert (H6 : n * B - 100 * M < 500) by nia.
  lia.
Qed.

(** Rounding to hundredths gives back the hundredths that were written. *)
Lemma hundredths_exact m k n :
  2 * Z.abs (100 * Zpos m - Z.of_N n * 2 ^ Zpos k) < 2 ^ Zpos k ->
  PyFloat.hundredths m (Zneg k) = n.
Proof.
  intros H. unfold PyFloat.hundredths.
  rewrite <- Pos2Z.inj_pow in H.
  set (d := Npos (2 ^ k)) in *. set (a := (100 * Npos m)%N).
  assert (Hd : d <> 0%N) by discriminate.
  pose proof (N.div_mod a d Hd) as Hdm.
  pose proof (N.mod_lt a d Hd) as Hlt.
  change (Zpos (2 ^ k)) with (Z.of_N d) in H.
  change (100 * Zpos m) with (Z.of_N a) in H.
  set (q := (a / d)%N) in *. set (r := (a mod d)%N) in *.
  clearbody q r. clearbody d a.
  assert (Hcase : (q = n /\ 2 * r < d)%N \/ ((q + 1)%N = n /\ (d < 2 * r)%N)).
  { assert (Hq : (q = n \/ q + 1 = n \/ n + 1 <= q \/ q + 2 <= n)%N) by lia.
    destruct Hq as [Hq | [Hq | [Hq | Hq]]].
    - left. subst q. split; [reflexivity|]. lia.
    - right. subst n. split; [reflexivity|]. lia.
    - exfalso. pose proof (N.mul_le_mono_l _ _ d Hq). lia.
    - exfalso. pose proof (N.mul_le_mono_l _ _ d Hq). lia. }
  destruct Hcase as [[-> Hc] | [<- Hc]].
  - apply N.compare_lt_iff in Hc. rewrite Hc. reflexivity.
  - apply N.compare_gt_iff in Hc. rewrite Hc. reflexivity.
Qed.

Close Scope Z_scope.
Open Scope N_scope.

Lemma digits_value_snoc ds d :
  PyFloat.digits_value (ds ++ [d]) = 10 * PyFloat.digits_value ds + d.
Proof. unfold PyFloat.digits_value. rewrite fold_left_app. reflexivity. Qed.

Lemma digits_value_bound ds :
  Forall (fun d => d < 10) ds ->
  PyFloat.digits_value ds < 10 ^ N.of_nat (List.length ds).
Proof.
  induction ds as [|d ds IH] using rev_ind; intros H.
  - simpl. unfold PyFloat.digits_value. simpl. lia.
  - apply Forall_app in H. destruct H as [H1 H2].
    apply Forall_inv in H2. specialize (IH H1).
    rewrite digits_value_snoc, length_app. cbn [List.length].
    rewrite Nat.add_1_r, Nat2N.inj_succ, N.pow_succ_r'. lia.
Qed.

Lemma digit_of_below cs :
  digit_values_below_ten -> Forall (fun d => d < 10) (flat_map digit_of cs).
Proof.
  intros Hten. induction cs as [|c cs IH]; [constructor|].
  cbn [flat_map]. apply Forall_app. split; [|exact IH].
  unfold digit_of. destruct (todecimal c) as [d|] eqn:E; constructor.
  - exact (Hten _ _ E).
  - constructor.
Qed.

Lemma split_hundredths w a b :
  a < 10 -> b < 10 ->
  (100 * w + 10 * a + b) / 100 = w
  /\ ((100 * w + 10 * a + b) / 10) mod 10 = a
  /\ (100 * w + 10 * a + b) mod 10 = b.
Proof.
  intros Ha Hb.
  assert (E : (100 * w + 10 * a + b) / 10 = 10 * w + a)
    by (symmetry; apply (N.div_unique _ _ _ b); lia).
  split; [symmetry; apply (N.div_unique _ _ _ (10 * a + b)); lia|].
  split.
  - rewrite E. symmetry. apply (N.mod_unique _ _ w); lia.
  - symmetry. apply (N.mod_unique _ _ (10 * w + a)); lia.
Qed.

(** The value of an amount text is the binary64 number nearest to a
    count of hundredths below [10^12], and printing it with two decimals
    gives that count back. *)
Lemma amount_value_prints g :
  digit_values_below_ten -> is_amount_text g ->
  PyFloat.digits_value (flat_map digit_of g) < 10 ^ 12
  /\ PyFloat.format_2f (amount_value g)
     = PyFloat.fixed2 (PyFloat.digits_value (flat_map digit_of g))
  /\ PyFloat.gt0 (amount_value g)
     = negb (PyFloat.digits_value (flat_map digit_of g) =? 0).
Proof.
  intros Hten (ip & sep & fp & -> & Hip & Hlen & Hsep & Hfp & Hlfp).
  assert (Hn : PyFloat.digits_value (flat_map digit_of (ip ++ sep :: fp))
               < 10 ^ 12).
  { pose proof (digits_value_bound _
                  (digit_of_below (ip ++ sep :: fp) Hten)) as Hbd.
    eapply N.lt_le_trans; [exact Hbd|].
    apply N.pow_le_mono_r; [lia|].
    rewrite flat_map_app. cbn [flat_map].
    replace (digit_of sep) with (@nil N)
      by (destruct Hsep as [-> | ->]; reflexivity).
    rewrite length_app. cbn [app].
    rewrite !flat_map_digit_length by assumption. lia. }
  split; [exact Hn|]. unfold amount_value.
  destruct (PyFloat.digits_value (flat_map digit_of (ip ++ sep :: fp)))
    as [|p]; [split; reflexivity|].
  assert (Hp : (Zpos p < 10 ^ 12)%Z).
  { change (10 ^ 12)%Z with 1000000000000%Z.
    change (10 ^ 12) with 1000000000000 in Hn. lia. }
  destruct (of_ratio_100_close p Hp) as (m & k & Hr & Hc).
  rewrite Hr. split; [|reflexivity].
  unfold PyFloat.format_2f. cbn [PyFloat.sign app].
  rewrite (hundredths_exact m k (Npos p)) by exact Hc. reflexivity.
Qed.

(** An amount text is printed by the encoder as it was written: the
    binary64 value of [ip,c1c2] formatted with two decimals is the whole
    part of the text, a dot and the two written digits, and it passes the
    test [amount > 0] unless all its digits are zero. *)
Theorem amount_round_trip ip sep c1 c2 a b iban :
  digit_values_below_ten ->
  holds isdecimal ip -> (1 <= List.length ip <= 10)%nat ->
  sep = ch "," \/ sep = ch "." ->
  todecimal c1 = Some a -> todecimal c2 = Some b ->
  let g := ip ++ sep :: [c1; c2] in
  let whole := PyFloat.digits_value (flat_map digit_of ip) in
  let printed :=
    PyFloat.decimal whole ++ py "."
      ++ [PyFloat.digit_char a; PyFloat.digit_char b] in
  is_amount_text g
  /\ PyFloat.of_str (replace (ch ",") (py ".") g) = Some (amount_value g)
  /\ PyFloat.format_2f (amount_value g) = printed
  /\ PyFloat.gt0 (amount_value g)
     = negb ((whole =? 0) && (a =? 0) && (b =? 0))
  /\ generate_qr_platba iban (amount_value g) [] [] []
     = py "SPD*1.0*ACC:" ++ iban ++ py "*"
         ++ (if (whole =? 0) && (a =? 0) && (b =? 0) then []
             else py "AM:" ++ printed ++ py "*").
Proof.
  intros Hten Hip Hlen Hsep Ha Hb g whole printed.
  assert (Hg : is_amount_text g).
  { exists ip, sep, [c1; c2]. split; [reflexivity|]. split; [exact Hip|].
    split; [exact Hlen|]. split; [exact Hsep|]. split; [|reflexivity].
    repeat constructor; unfold isdecimal; [rewrite Ha|rewrite Hb]; reflexivity. }
  split; [exact Hg|]. split; [exact (of_str_amount g Hg)|].
  set (n := PyFloat.digits_value (flat_map digit_of g)).
  assert (Hn : n = 100 * whole + 10 * a + b).
  { unfold n, g. rewrite flat_map_app. cbn [flat_map].
    replace (digit_of sep) with (@nil N)
      by (destruct Hsep as [-> | ->]; reflexivity).
    unfold digit_of at 2 3. rewrite Ha, Hb. cbn [app].
    change [a; b] with ([a] ++ [b]). rewrite app_assoc.
    rewrite !digits_value_snoc. fold whole. lia. }
  pose proof (Hten _ _ Ha) as Ha10. pose proof (Hten _ _ Hb) as Hb10.
  assert (Hfix : PyFloat.fixed2 n = printed).
  { unfold PyFloat.fixed2, printed.
    destruct (split_hundredths whole a b Ha10 Hb10) as (E1 & E2 & E3).
    rewrite Hn, E1, E2, E3. reflexivity. }
  assert (Hz : (whole =? 0) && (a =? 0) && (b =? 0) = (n =? 0)).
  { destruct (N.eqb_spec whole 0), (N.eqb_spec a 0), (N.eqb_spec b 0),
      (N.eqb_spec n 0); try reflexivity; lia. }
  rewrite Hz.
  destruct (amount_value_prints g Hten Hg) as (_ & Hf & Hgt).
  fold n in Hf, Hgt.
  rewrite <- Hfix.
  split; [exact Hf|]. split; [exact Hgt|].
  unfold generate_qr_platba. rewrite Hgt, Hf. cbn [truthy].
  destruct (n =? 0); cbn [negb]; rewrite <- ?app_assoc, ?app_nil_r; reflexivity.
Qed.

(** Whatever the text, the extracted amount is the binary64 number nearest
    to a count of hundredths below [10^12], the two-decimal print of the
    amount is that count, and the amount passes the test [amount > 0]
    exactly when the count is not zero. *)
Theorem extracted_amount_prints_exactly text :
  digit_values_below_ten ->
  exists f n,
    parse_text text = Some f
    /\ n < 10 ^ 12
    /\ f_amount f = PyFloat.of_ratio n 100
    /\ PyFloat.format_2f (f_amount f) = PyFloat.fixed2 n
    /\ PyFloat.gt0 (f_amount f) = negb (n =? 0).
Proof.
  intros Hten.
  destruct (parse_text_rules text) as (f & Hf & _ & Ha & _).
  exists f.
  assert (Hg : forall g, is_amount_text g -> f_amount f = amount_value g ->
    exists n, n < 10 ^ 12
      /\ f_amount f = PyFloat.of_ratio n 100
      /\ PyFloat.format_2f (f_amount f) = PyFloat.fixed2 n
      /\ PyFloat.gt0 (f_amount f) = negb (n =? 0)).
  { intros g Hg E. destruct (amount_value_prints g Hten Hg) as (H1 & H2 & H3).
    exists (PyFloat.digits_value (flat_map digit_of g)). rewrite E.
    split; [exact H1|]. split; [reflexivity|]. split; assumption. }
  unfold amount_rule in Ha. destruct (search amount_re text).
  - destruct Ha as (pre & g & ws & mk & post & _ & Hgt & _ & _ & _ & _ & E).
    destruct (Hg g Hgt E) as (n & Hn). exists n. split; [exact Hf|exact Hn].
  - destruct (search amount_re_rev text).
    + destruct Ha as (pre & mk & ws & g & post & _ & _ & _ & Hgt & _ & _ & E).
      destruct (Hg g Hgt E) as (n & Hn). exists n. split; [exact Hf|exact Hn].
    + exists 0. rewrite Ha. split; [exact Hf|].
      split; [reflexivity|]. split; [reflexivity|]. split; reflexivity.
Qed.

End AmountRoundTrip.

(** ** The theorems at concrete inputs *)

Section Instances.
#[local] Existing Instance ascii_only.


(** The text [Faktura 2024 VS: 123456789012]: the label is the first one,
    twelve digits follow it, and the reference code is [1234567890]. *)
Lemma C10_labelled_run_is_truncated_witness :
  first_at vs_re (py "Faktura 2024 VS: 123456789012") (py "Faktura 2024 ")
  /\ exists f, parse_text (py "Faktura 2024 VS: 123456789012") = Some f
               /\ f_vs f = py "1234567890".
Proof.
  assert (H : first_at vs_re (py "Faktura 2024 VS: 123456789012")
                (py "Faktura 2024 ")).
  { apply (proj2 (first_at_none _ _ _)). intros i Hi.
    do 13 (destruct i as [|i]; [vm_compute; reflexivity|]).
    simpl in Hi. lia. }
  split; [exact H|].
  apply (C10_labelled_run_is_truncated (py "Faktura 2024 ")
           (py "VS") (py ":") (py " ") (py "1234567890") (ch "1") (py "2")).
  - left. repeat constructor.
  - right. reflexivity.
  - repeat constructor.
  - repeat constructor.
  - reflexivity.
  - reflexivity.
  - exact H.
Defined.

(** The amount text [123,45] is read as 123.45. *)
Lemma C4_amount_extraction_witness :
  is_amount_text (py "123,45")
  /\ PyFloat.of_str (replace (ch ",") (py ".") (py "123,45")) = Some float_123_45.
Proof.
  assert (H : is_amount_text (py "123,45")).
  { exists (py "123"), (ch ","), (py "45").
    split; [reflexivity|]. split; [repeat constructor|].
    split; [simpl; lia|]. split; [left; reflexivity|].
    split; [repeat constructor|reflexivity]. }
  split; [exact H|].
  destruct C4_amount_extraction as (_ & _ & _ & Hv & _).
  rewrite (Hv _ H). reflexivity.
Defined.

(** The text [dobry den] has none of the patterns: every field has its
    default. *)
Lemma C7_parse_text_invariants_witness :
  ~ has_iban (py "dobry den")
  /\ ~ has_amount (py "dobry den") /\ ~ has_amount_rev (py "dobry den")
  /\ ~ has_labelled_vs (py "dobry den") /\ ~ has_standalone_vs (py "dobry den")
  /\ exists f, parse_text (py "dobry den") = Some f
               /\ f_iban f = [] /\ f_amount f = PyFloat.zero
               /\ f_currency f = py "EUR" /\ f_vs f = [].
Proof.
  assert (H1 : ~ has_iban (py "dobry den"))
    by (apply search_iban_iff; vm_compute; reflexivity).
  assert (H2 : ~ has_amount (py "dobry den"))
    by (apply search_amount_iff; vm_compute; reflexivity).
  assert (H3 : ~ has_amount_rev (py "dobry den"))
    by (apply search_amount_rev_iff; vm_compute; reflexivity).
  assert (H4 : ~ has_labelled_vs (py "dobry den"))
    by (apply search_vs_iff; vm_compute; reflexivity).
  assert (H5 : ~ has_standalone_vs (py "dobry den"))
    by (apply search_vs_standalone_iff; vm_compute; reflexivity).
  repeat (split; [assumption|]).
  destruct (C7_parse_text_invariants (py "dobry den"))
    as (f & Hf & _ & _ & _ & Hi & Ha & Hc & Hv).
  exists f. split; [exact Hf|]. split; [exact (Hi H1)|].
  split; [exact (Ha H2 H3)|]. split; [|exact (Hv H4 H5)].
  apply Hc. vm_compute in Hf. inversion Hf. reflexivity.
Defined.

(** The ASCII digits have the values 0 to 9. *)
Lemma ascii_digit_values : digit_values_below_ten.
Proof.
  intros c d H. unfold todecimal in H.
  destruct (is_ascii c); [|discriminate H].
  destruct (ascii_digit c) eqn:E; [|discriminate H].
  injection H as <-. unfold ascii_digit in E.
  apply andb_prop in E. destruct E as [E1 E2].
  apply N.leb_le in E1. apply N.leb_le in E2. lia.
Qed.

(** A note that ends in a forged reference segment. *)
Lemma note_can_forge_reference_witness :
  generate_qr_platba (py "CZ6508000000192000145399") PyFloat.zero (py "CZK")
    [] (py "dakujeme" ++ py "*X-VS:" ++ py "77")
  = generate_qr_platba (py "CZ6508000000192000145399") PyFloat.zero
      (py "CZK") (py "77") (py "dakujeme").
Proof.
  apply (note_can_forge_reference (py "CZ6508000000192000145399")
           PyFloat.zero (py "CZK") (py "dakujeme") (py "77"));
    reflexivity.
Defined.

(** The amount [2^-10], about a thousandth. *)
Lemma tiny_amount_is_printed_as_zero_witness :
  (200 * 1 < Npos (2 ^ 10))%N
  /\ generate_qr_platba (py "CZ6508000000192000145399")
       (S754_finite false 1 (-10)) [] [] []
     = py "SPD*1.0*ACC:CZ6508000000192000145399*AM:0.00*".
Proof.
  split; [reflexivity|].
  destruct (tiny_amount_is_printed_as_zero (py "CZ6508000000192000145399")
              1 10 eq_refl) as (_ & _ & H).
  rewrite H. reflexivity.
Defined.


(** A picture whose only page reads as two spaces. *)
Lemma on_upload_blank_witness :
  snd (on_upload (fun _ : unit => py "image/png") (fun _ => Failed [])
         (fun _ => Done (py "  ")) (fun page : str => Done page)
         (Some tt) (SessionState None None None None))
  = Some reset_state.
Proof.
  apply (on_upload_blank unit str (fun _ => py "image/png")
           (fun _ => Failed []) (fun _ => Done (py "  "))
           (fun page => Done page) tt (SessionState None None None None)
           [py "  "]).
  - reflexivity.
  - discriminate.
  - repeat constructor.
Defined.


(** A PDF of two pages, the second of which cannot be read. *)
Lemma on_upload_extracts_witness :
  exists f,
    parse_text (py "Spolu 12,50 EUR" ++ [10%N] ++ [10%N]) = Some f
    /\ on_upload (fun _ : unit => py "application/pdf")
         (fun _ => Done [true; false]) (fun _ => Failed [])
         (fun page : bool =>
            if page then Done (py "Spolu 12,50 EUR") else Failed (py "OCR"))
         (Some tt) (SessionState None None None None)
       = ([st_error (msg_ocr_failed ++ py "OCR"); st_success msg_extracted],
          Some (state_of f)).
Proof.
  apply (on_upload_extracts unit bool (fun _ => py "application/pdf")
           (fun _ => Done [true; false]) (fun _ => Failed [])
           (fun page : bool =>
              if page then Done (py "Spolu 12,50 EUR") else Failed (py "OCR"))
           tt (SessionState None None None None) [true; false]).
  - reflexivity.
  - discriminate.
  - reflexivity.
Defined.

(** The amount text [12,50]. *)
Lemma amount_round_trip_witness :
  PyFloat.format_2f (amount_value (py "12,50")) = py "12.50"
  /\ generate_qr_platba (py "CZ6508000000192000145399")
       (amount_value (py "12,50")) [] [] []
     = py "SPD*1.0*ACC:CZ6508000000192000145399*AM:12.50*".
Proof.
  destruct (amount_round_trip (py "12") (ch ",") (ch "5") (ch "0") 5 0
              (py "CZ6508000000192000145399") ascii_digit_values)
    as (_ & _ & H1 & _ & H2).
  - repeat constructor.
  - simpl. lia.
  - left. reflexivity.
  - reflexivity.
  - reflexivity.
  - split; [exact H1|exact H2].
Defined.

(** The text [Spolu 12,50 EUR]. *)
Lemma extracted_amount_prints_exactly_witness :
  exists f n,
    parse_text (py "Spolu 12,50 EUR") = Some f
    /\ (n < 10 ^ 12)%N
    /\ f_amount f = PyFloat.of_ratio n 100
    /\ PyFloat.format_2f (f_amount f) = PyFloat.fixed2 n
    /\ PyFloat.gt0 (f_amount f) = negb (n =? 0)%N.
Proof.
  apply (extracted_amount_prints_exactly (py "Spolu 12,50 EUR")).
  exact ascii_digit_values.
Defined.

End Instances.
